(** * The ephemeral volume controller
    (pkg/controller/volume/ephemeral/controller.go)

    A shallow embedding of the controller that creates a
    PersistentVolumeClaim for every ephemeral inline volume of a pod, and the
    properties of its event handlers, its worker step and its sync handler.

    The controller is a Go struct whose fields are interfaces with hidden
    state (a client, two listers, an indexer, an event recorder, a work
    queue).  Here the struct is a record holding the state of each
    collaborator, and every method is a function in a small state monad over
    that record.  A Go panic (nil pointer dereference) and a blocking call
    are outcomes of the monad. *)

From Stdlib Require Import Ascii String.
From stdpp Require Import gmap strings list fin_maps.

(** ** API types (k8s.io/apimachinery, k8s.io/api/core/v1) *)

Module metav1.

(** metav1.StatusReason, as far as the controller distinguishes reasons. *)
Inductive StatusReason :=
| StatusReasonUnknown
| StatusReasonNotFound
| StatusReasonAlreadyExists
| StatusReasonInvalid
| StatusReasonInternalError.

Record OwnerReference := {
  APIVersion : string;
  Kind : string;
  OwnerName : string;
  OwnerUID : string;
  Controller : option bool;          (* *bool *)
  BlockOwnerDeletion : option bool   (* *bool *)
}.

Record ObjectMeta := {
  Name : string;
  Namespace : string;
  UID : string;
  DeletionTimestamp : option Z;      (* *metav1.Time *)
  OwnerReferences : list OwnerReference;
  Labels : gmap string string;
  Annotations : gmap string string
}.

End metav1.

(** A Go [error] value: the API status reason it carries (if any) and its
    text.  [fmt.Errorf] with [%v] builds a fresh error that carries no status. *)
Record error := {
  reason : metav1.StatusReason;
  msg : string
}.

Module v1.

(** v1.PersistentVolumeClaimSpec.  The struct is declared in k8s.io/api;
    the controller only ever copies it as a whole, so the fields kept here
    are the ones a claim template usually sets. *)
Record PersistentVolumeClaimSpec := {
  AccessModes : list string;
  StorageClassName : option string;
  VolumeName : string;
  StorageRequest : Z
}.

Record PersistentVolumeClaim := {
  PVCMeta : metav1.ObjectMeta;
  PVCSpec : PersistentVolumeClaimSpec
}.

(** v1.PersistentVolumeClaimTemplate *)
Record PersistentVolumeClaimTemplate := {
  TemplateMeta : metav1.ObjectMeta;
  TemplateSpec : PersistentVolumeClaimSpec
}.

(** v1.EphemeralVolumeSource: the template is a pointer. *)
Record EphemeralVolumeSource := {
  VolumeClaimTemplate : option PersistentVolumeClaimTemplate
}.

(** v1.Volume: a name and its source; [Ephemeral] is nil for every volume
    that is not an inline ephemeral one. *)
Record Volume := {
  VolName : string;
  Ephemeral : option EphemeralVolumeSource
}.

Record PodSpec := {
  Volumes : list Volume
}.

Record Pod := {
  PodMeta : metav1.ObjectMeta;
  Spec : PodSpec
}.

Definition EventTypeWarning : string := "Warning".

End v1.

(** What an informer hands to an event handler as [interface{}]. *)
Inductive Obj :=
| PodObj (pod : v1.Pod)
| PVCObj (pvc : v1.PersistentVolumeClaim)
| DeletedFinalStateUnknown (key : string).

#[global] Instance StatusReason_eq_dec : EqDecision metav1.StatusReason.
Proof. solve_decision. Defined.

(** errors.IsNotFound *)
Definition IsNotFound (err : error) : bool :=
  bool_decide (reason err = metav1.StatusReasonNotFound).

(** The [%q] verb on a plain name: the name between double quotes. *)
Definition quoted (s : string) : string :=
  let q := String (Ascii.ascii_of_nat 34) EmptyString in q +:+ s +:+ q.

(** errors.NewNotFound / errors.NewAlreadyExists, as the listers and the API
    server build them. *)
Definition NewNotFound (resource name : string) : error :=
  {| reason := metav1.StatusReasonNotFound;
     msg := resource +:+ " " +:+ quoted name +:+ " not found" |}.

Definition NewAlreadyExists (resource name : string) : error :=
  {| reason := metav1.StatusReasonAlreadyExists;
     msg := resource +:+ " " +:+ quoted name +:+ " already exists" |}.

(** fmt.Errorf with [%v] verbs only: the text, no status. *)
Definition Errorf (text : string) : error :=
  {| reason := metav1.StatusReasonUnknown; msg := text |}.

(** ** Helpers the controller imports *)

(** strings.Split with a one-character separator: always at least one part. *)
Fixpoint strings_Split (sep : Ascii.ascii) (s : string) : list string :=
  match s with
  | EmptyString => [EmptyString]
  | String c rest =>
      if Ascii.eqb c sep then EmptyString :: strings_Split sep rest
      else match strings_Split sep rest with
           | part :: parts => String c part :: parts
           | [] => [String c EmptyString]
           end
  end.

(** Modelled from the spec: kcache.SplitMetaNamespaceKey lives in client-go,
    outside this file.  A work-item key is the pod's (namespace, name) pair
    written [namespace/name], or a bare [name]; anything with more than one
    slash does not parse. *)
Definition SplitMetaNamespaceKey (key : string) : string * string * option error :=
  match strings_Split "/"%char key with
  | [name] => ("", name, None)
  | [namespace; name] => (namespace, name, None)
  | _ => ("", "", Some (Errorf ("unexpected key format: " +:+ quoted key)))
  end.

(** Modelled from the spec: kcache.DeletionHandlingMetaNamespaceKeyFunc lives
    in client-go.  For a pod it yields the work-item key, the pod's
    (namespace, name) pair, and never fails. *)
Definition DeletionHandlingMetaNamespaceKeyFunc (pod : v1.Pod) : string * option error :=
  let meta := v1.PodMeta pod in
  if bool_decide (metav1.Namespace meta = "") then (metav1.Name meta, None)
  else (metav1.Namespace meta +:+ "/" +:+ metav1.Name meta, None).

(** Modelled from the spec: ephemeral.VolumeClaimName lives in
    k8s.io/component-helpers.  The claim name is a deterministic function of
    the pod and the declaration name: pod [p1] with volume [vol-a] gives
    [p1-vol-a]. *)
Definition VolumeClaimName (pod : v1.Pod) (vol : v1.Volume) : string :=
  metav1.Name (v1.PodMeta pod) +:+ "-" +:+ v1.VolName vol.

(** metav1.GetControllerOf: the first owner reference whose Controller
    pointer is set and true. *)
Definition GetControllerOf (meta : metav1.ObjectMeta) : option metav1.OwnerReference :=
  List.find (fun ref => match metav1.Controller ref with
                        | Some true => true
                        | _ => false
                        end)
            (metav1.OwnerReferences meta).

(** metav1.IsControlledBy: the controlling reference carries the owner's UID. *)
Definition IsControlledBy (obj owner : metav1.ObjectMeta) : bool :=
  match GetControllerOf obj with
  | Some ref => bool_decide (metav1.OwnerUID ref = metav1.UID owner)
  | None => false
  end.

(** Modelled from the spec: ephemeral.VolumeIsForPod lives in
    k8s.io/component-helpers.  A claim is for the pod when it is in the pod's
    namespace and owned (controlled) by the pod, matched by UID; otherwise
    the check returns an error. *)
Definition VolumeIsForPod (pod : v1.Pod) (pvc : v1.PersistentVolumeClaim) : option error :=
  let pm := v1.PodMeta pod in
  let cm := v1.PVCMeta pvc in
  if negb (bool_decide (metav1.Namespace cm = metav1.Namespace pm))
     || negb (IsControlledBy cm pm)
  then Some (Errorf ("PVC " +:+ metav1.Namespace cm +:+ "/" +:+ metav1.Name cm +:+
                     " was not created for pod " +:+ metav1.Namespace pm +:+ "/" +:+
                     metav1.Name pm +:+ " (pod is not owner)"))
  else None.

(** common.PodPVCIndex and events.FailedBinding: constants declared in
    sibling packages. *)
Definition PodPVCIndex : string := "pod-pvc-index".
Definition FailedBinding : string := "FailedBinding".

(** ** Collaborators *)

(** The calls a typed PersistentVolumeClaim client offers. *)
Inductive Action :=
| CreateAction (namespace : string) (pvc : v1.PersistentVolumeClaim)
| UpdateAction (namespace : string) (pvc : v1.PersistentVolumeClaim)
| UpdateStatusAction (namespace : string) (pvc : v1.PersistentVolumeClaim)
| PatchAction (namespace name : string)
| DeleteAction (namespace name : string)
| DeleteCollectionAction (namespace : string)
| GetAction (namespace name : string)
| ListAction (namespace : string).

Definition isCreate (a : Action) : bool :=
  match a with CreateAction _ _ => true | _ => false end.

(** Modelled from the spec: the store collaborator (the API server behind
    [kubeClient]).  It holds the claims by (namespace, name), exposes a
    create operation that reports "already exists" apart from other
    failures, and keeps nothing of a failed call.  [refuses] stands for every
    other failure (validation, availability); it may depend on how many
    calls came before.  [actions] is the log of calls, oldest first. *)
Record Clientset := {
  objects : gmap (string * string) v1.PersistentVolumeClaim;
  refuses : nat -> string -> v1.PersistentVolumeClaim -> option error;
  actions : list Action
}.

Definition inNamespace (namespace : string) (pvc : v1.PersistentVolumeClaim)
  : v1.PersistentVolumeClaim :=
  let m := v1.PVCMeta pvc in
  {| v1.PVCMeta :=
       {| metav1.Name := metav1.Name m;
          metav1.Namespace := namespace;
          metav1.UID := metav1.UID m;
          metav1.DeletionTimestamp := metav1.DeletionTimestamp m;
          metav1.OwnerReferences := metav1.OwnerReferences m;
          metav1.Labels := metav1.Labels m;
          metav1.Annotations := metav1.Annotations m |};
     v1.PVCSpec := v1.PVCSpec pvc |}.

(** kubeClient.CoreV1().PersistentVolumeClaims(namespace).Create(ctx, pvc, opts) *)
Definition Create (namespace : string) (pvc : v1.PersistentVolumeClaim) (c : Clientset)
  : option error * Clientset :=
  let name := metav1.Name (v1.PVCMeta pvc) in
  let logged := actions c ++ [CreateAction namespace pvc] in
  match objects c !! (namespace, name) with
  | Some _ =>
      (Some (NewAlreadyExists "persistentvolumeclaims" name),
       {| objects := objects c; refuses := refuses c; actions := logged |})
  | None =>
      match refuses c (length (actions c)) namespace pvc with
      | Some err =>
          (Some err, {| objects := objects c; refuses := refuses c; actions := logged |})
      | None =>
          (None, {| objects := <[(namespace, name) := inNamespace namespace pvc]> (objects c);
                    refuses := refuses c;
                    actions := logged |})
      end
  end.

(** Modelled from the spec: the work queue (client-go's rate limiting queue).
    Keys wait in [waiting] in arrival order; [dirty] and [processing] give
    deduplication and at most one worker per key; a failed key is re-added
    after a per-key backoff ([delayed], with [failures] counting the
    requeues) and [Forget] clears that count; after shutdown nothing is
    accepted. *)
Record RateLimitingQueue := {
  waiting : list string;
  dirty : gset string;
  processing : gset string;
  delayed : list string;
  failures : gmap string nat;
  shuttingDown : bool
}.

Definition queue_Add (key : string) (q : RateLimitingQueue) : RateLimitingQueue :=
  if shuttingDown q then q
  else if bool_decide (key ∈ dirty q) then q
  else {| waiting := if bool_decide (key ∈ processing q) then waiting q
                     else waiting q ++ [key];
          dirty := {[key]} ∪ dirty q;
          processing := processing q;
          delayed := delayed q;
          failures := failures q;
          shuttingDown := shuttingDown q |}.

(** [Get] blocks on an empty queue until shutdown: [None] is "no answer yet". *)
Definition queue_Get (q : RateLimitingQueue) : option (string * bool * RateLimitingQueue) :=
  match waiting q with
  | key :: rest =>
      Some (key, false,
            {| waiting := rest;
               dirty := dirty q ∖ {[key]};
               processing := {[key]} ∪ processing q;
               delayed := delayed q;
               failures := failures q;
               shuttingDown := shuttingDown q |})
  | [] => if shuttingDown q then Some ("", true, q) else None
  end.

Definition queue_Done (key : string) (q : RateLimitingQueue) : RateLimitingQueue :=
  {| waiting := if bool_decide (key ∈ dirty q) then waiting q ++ [key] else waiting q;
     dirty := dirty q;
     processing := processing q ∖ {[key]};
     delayed := delayed q;
     failures := failures q;
     shuttingDown := shuttingDown q |}.

Definition queue_Forget (key : string) (q : RateLimitingQueue) : RateLimitingQueue :=
  {| waiting := waiting q;
     dirty := dirty q;
     processing := processing q;
     delayed := delayed q;
     failures := delete key (failures q);
     shuttingDown := shuttingDown q |}.

Definition queue_AddRateLimited (key : string) (q : RateLimitingQueue) : RateLimitingQueue :=
  {| waiting := waiting q;
     dirty := dirty q;
     processing := processing q;
     delayed := if shuttingDown q then delayed q else delayed q ++ [key];
     failures := <[key := S (default 0 (failures q !! key))]> (failures q);
     shuttingDown := shuttingDown q |}.

(** recorder.Event(object, eventtype, reason, message) *)
Record Event := {
  involved : v1.Pod;
  eventtype : string;
  eventreason : string;
  message : string
}.

(** ** The controller *)

(** The struct's fields with the state behind each of them, and the
    process-wide state the methods reach: the [runtime.HandleError] log and
    the two metrics counters.  Listers answer like Go functions, with an
    object pointer and an error. *)
Record ephemeralController := {
  kubeClient : Clientset;
  pvcLister : string -> string -> option v1.PersistentVolumeClaim * option error;
  podLister : string -> string -> option v1.Pod * option error;
  podIndexer : string -> string -> list Obj * option error;
  recorder : list Event;
  queue : RateLimitingQueue;
  handledErrors : list error;
  EphemeralVolumeCreateAttempts : nat;
  EphemeralVolumeCreateFailures : nat
}.

Definition with_kubeClient (c : Clientset) (ec : ephemeralController) : ephemeralController :=
  {| kubeClient := c;
     pvcLister := pvcLister ec; podLister := podLister ec; podIndexer := podIndexer ec;
     recorder := recorder ec; queue := queue ec; handledErrors := handledErrors ec;
     EphemeralVolumeCreateAttempts := EphemeralVolumeCreateAttempts ec;
     EphemeralVolumeCreateFailures := EphemeralVolumeCreateFailures ec |}.

Definition with_pvcLister
    (l : string -> string -> option v1.PersistentVolumeClaim * option error)
    (ec : ephemeralController) : ephemeralController :=
  {| kubeClient := kubeClient ec;
     pvcLister := l; podLister := podLister ec; podIndexer := podIndexer ec;
     recorder := recorder ec; queue := queue ec; handledErrors := handledErrors ec;
     EphemeralVolumeCreateAttempts := EphemeralVolumeCreateAttempts ec;
     EphemeralVolumeCreateFailures := EphemeralVolumeCreateFailures ec |}.

Definition with_recorder (r : list Event) (ec : ephemeralController) : ephemeralController :=
  {| kubeClient := kubeClient ec;
     pvcLister := pvcLister ec; podLister := podLister ec; podIndexer := podIndexer ec;
     recorder := r; queue := queue ec; handledErrors := handledErrors ec;
     EphemeralVolumeCreateAttempts := EphemeralVolumeCreateAttempts ec;
     EphemeralVolumeCreateFailures := EphemeralVolumeCreateFailures ec |}.

Definition with_queue (q : RateLimitingQueue) (ec : ephemeralController) : ephemeralController :=
  {| kubeClient := kubeClient ec;
     pvcLister := pvcLister ec; podLister := podLister ec; podIndexer := podIndexer ec;
     recorder := recorder ec; queue := q; handledErrors := handledErrors ec;
     EphemeralVolumeCreateAttempts := EphemeralVolumeCreateAttempts ec;
     EphemeralVolumeCreateFailures := EphemeralVolumeCreateFailures ec |}.

Definition with_handledErrors (l : list error) (ec : ephemeralController) : ephemeralController :=
  {| kubeClient := kubeClient ec;
     pvcLister := pvcLister ec; podLister := podLister ec; podIndexer := podIndexer ec;
     recorder := recorder ec; queue := queue ec; handledErrors := l;
     EphemeralVolumeCreateAttempts := EphemeralVolumeCreateAttempts ec;
     EphemeralVolumeCreateFailures := EphemeralVolumeCreateFailures ec |}.

Definition with_metrics (attempts failed : nat) (ec : ephemeralController) : ephemeralController :=
  {| kubeClient := kubeClient ec;
     pvcLister := pvcLister ec; podLister := podLister ec; podIndexer := podIndexer ec;
     recorder := recorder ec; queue := queue ec; handledErrors := handledErrors ec;
     EphemeralVolumeCreateAttempts := attempts;
     EphemeralVolumeCreateFailures := failed |}.

(** *** The monad of the methods *)

Inductive Outcome (A : Type) :=
| Returns (a : A)
| Panics (what : string)
| Blocks.
Arguments Returns {A} a.
Arguments Panics {A} what.
Arguments Blocks {A}.

Definition M (A : Type) : Type := ephemeralController -> Outcome A * ephemeralController.

Definition ret {A} (a : A) : M A := fun ec => (Returns a, ec).

Definition bind {A B} (m : M A) (k : A -> M B) : M B :=
  fun ec =>
    match m ec with
    | (Returns a, ec') => k a ec'
    | (Panics what, ec') => (Panics what, ec')
    | (Blocks, ec') => (Blocks, ec')
    end.

Notation "'let*' x ':=' m 'in' k" := (bind m (fun x => k))
  (at level 10, x name, m at level 100, k at level 200).
Notation "m ';;;' k" := (bind m (fun _ => k))
  (at level 100, k at level 200, right associativity).

Definition this : M ephemeralController := fun ec => (Returns ec, ec).
Definition modify (f : ephemeralController -> ephemeralController) : M unit :=
  fun ec => (Returns tt, f ec).
Definition panic {A} (what : string) : M A := fun ec => (Panics what, ec).
Definition blocks {A} : M A := fun ec => (Blocks, ec).

(** Reading a field through a pointer. *)
Definition deref {A} (p : option A) : M A :=
  match p with
  | Some a => ret a
  | None => panic "invalid memory address or nil pointer dereference"
  end.

(** [defer cleanup] before [body]: the cleanup runs when the body returns
    and also when it panics. *)
Definition defer {A} (cleanup : M unit) (body : M A) : M A :=
  fun ec =>
    let '(outcome, ec') := body ec in
    (outcome, snd (cleanup ec')).

(** klog.V(5).Infof: the arguments are evaluated by the caller; the line
    itself leaves no trace in the controller's state. *)
Definition klog_Infof (text : string) : M unit := ret tt.

(** runtime.HandleError *)
Definition HandleError (err : error) : M unit :=
  modify (fun ec => with_handledErrors (handledErrors ec ++ [err]) ec).

Definition recorder_Event (pod : v1.Pod) (type reason text : string) : M unit :=
  modify (fun ec =>
    with_recorder
      (recorder ec ++ [{| involved := pod; eventtype := type;
                          eventreason := reason; message := text |}]) ec).

Definition on_queue (f : RateLimitingQueue -> RateLimitingQueue) : M unit :=
  modify (fun ec => with_queue (f (queue ec)) ec).

Definition client_Create (namespace : string) (pvc : v1.PersistentVolumeClaim)
  : M (option error) :=
  fun ec =>
    let '(err, c) := Create namespace pvc (kubeClient ec) in
    (Returns err, with_kubeClient c ec).

Definition EphemeralVolumeCreateAttempts_Inc : M unit :=
  modify (fun ec => with_metrics (S (EphemeralVolumeCreateAttempts ec))
                                 (EphemeralVolumeCreateFailures ec) ec).

Definition EphemeralVolumeCreateFailures_Inc : M unit :=
  modify (fun ec => with_metrics (EphemeralVolumeCreateAttempts ec)
                                 (S (EphemeralVolumeCreateFailures ec)) ec).

(** The [%#v] rendering of a pod, abbreviated to its identity. *)
Definition goSyntax (pod : v1.Pod) : string :=
  "&v1.Pod{" +:+ metav1.Namespace (v1.PodMeta pod) +:+ "/" +:+
  metav1.Name (v1.PodMeta pod) +:+ "}".

Definition isSet {A} (p : option A) : bool :=
  match p with Some _ => true | None => false end.

(** *** Event handlers *)

(** The loop of [enqueuePod]: the first volume with an ephemeral source
    decides, then [break]. *)
Fixpoint enqueuePod_volumes (pod : v1.Pod) (vols : list v1.Volume) : M unit :=
  match vols with
  | [] => ret tt
  | vol :: rest =>
      if isSet (v1.Ephemeral vol) then
        let '(key, err) := DeletionHandlingMetaNamespaceKeyFunc pod in
        match err with
        | Some e =>
            HandleError (Errorf ("couldn't get key for object " +:+ goSyntax pod +:+
                                 ": " +:+ msg e))
        | None => on_queue (queue_Add key)
        end
      else enqueuePod_volumes pod rest
  end.

Definition enqueuePod (obj : Obj) : M unit :=
  match obj with
  | PodObj pod =>
      (* Ignore pods which are already getting deleted. *)
      if isSet (metav1.DeletionTimestamp (v1.PodMeta pod)) then ret tt
      else enqueuePod_volumes pod (v1.Volumes (v1.Spec pod))
  | _ => ret tt
  end.

Fixpoint enqueuePods (objs : list Obj) : M unit :=
  match objs with
  | [] => ret tt
  | obj :: rest => enqueuePod obj ;;; enqueuePods rest
  end.

Definition onPVCDelete (obj : Obj) : M unit :=
  match obj with
  | PVCObj pvc =>
      let* ec := this in
      let '(objs, err) :=
        podIndexer ec PodPVCIndex
          (metav1.Namespace (v1.PVCMeta pvc) +:+ "/" +:+ metav1.Name (v1.PVCMeta pvc)) in
      match err with
      | Some e => HandleError (Errorf ("listing pods from cache: " +:+ msg e))
      | None => enqueuePods objs
      end
  | _ => ret tt
  end.

(** *** The sync handler *)

(** handleVolume is invoked for each volume of a pod. *)
Definition handleVolume (pod : v1.Pod) (vol : v1.Volume) : M (option error) :=
  klog_Infof ("ephemeral: checking volume " +:+ v1.VolName vol) ;;;
  match v1.Ephemeral vol with
  | None => ret None
  | Some source =>
      let namespace := metav1.Namespace (v1.PodMeta pod) in
      let pvcName := VolumeClaimName pod vol in
      let* ec := this in
      let '(pvc, err) := pvcLister ec namespace pvcName in
      if isSet err && negb (from_option IsNotFound false err) then ret err
      else
        match pvc with
        | Some pvc =>
            match VolumeIsForPod pod pvc with
            | Some e => ret (Some e)
            | None =>
                (* Already created, nothing more to do. *)
                klog_Infof ("ephemeral: volume " +:+ v1.VolName vol +:+ ": PVC " +:+
                            pvcName +:+ " already created") ;;;
                ret None
            end
        | None =>
            (* Create the PVC with pod as owner. *)
            let isTrue := true in
            let* template := deref (v1.VolumeClaimTemplate source) in
            let pvc :=
              {| v1.PVCMeta :=
                   {| metav1.Name := pvcName;
                      metav1.Namespace := "";
                      metav1.UID := "";
                      metav1.DeletionTimestamp := None;
                      metav1.OwnerReferences :=
                        [ {| metav1.APIVersion := "v1";
                             metav1.Kind := "Pod";
                             metav1.OwnerName := metav1.Name (v1.PodMeta pod);
                             metav1.OwnerUID := metav1.UID (v1.PodMeta pod);
                             metav1.Controller := Some isTrue;
                             metav1.BlockOwnerDeletion := Some isTrue |} ];
                      metav1.Annotations := metav1.Annotations (v1.TemplateMeta template);
                      metav1.Labels := metav1.Labels (v1.TemplateMeta template) |};
                 v1.PVCSpec := v1.TemplateSpec template |} in
            EphemeralVolumeCreateAttempts_Inc ;;;
            let* err := client_Create namespace pvc in
            match err with
            | Some e =>
                EphemeralVolumeCreateFailures_Inc ;;;
                ret (Some (Errorf ("create PVC " +:+ pvcName +:+ ": " +:+ msg e)))
            | None => ret None
            end
        end
  end.

(** The loop of [syncHandler] over the pod's volumes: the first failing
    volume records a warning event and ends the pass. *)
Fixpoint syncHandler_volumes (key : string) (pod : v1.Pod) (vols : list v1.Volume)
  : M (option error) :=
  match vols with
  | [] => ret None
  | vol :: rest =>
      let* err := handleVolume pod vol in
      match err with
      | Some e =>
          recorder_Event pod v1.EventTypeWarning FailedBinding
            ("ephemeral volume " +:+ v1.VolName vol +:+ ": " +:+ msg e) ;;;
          ret (Some (Errorf ("pod " +:+ key +:+ ", ephemeral volume " +:+
                             v1.VolName vol +:+ ": " +:+ msg e)))
      | None => syncHandler_volumes key pod rest
      end
  end.

(** syncHandler is invoked for each pod which might need to be processed.
    If an error is returned from this function, the pod will be requeued. *)
Definition syncHandler (key : string) : M (option error) :=
  let '(namespace, name, err) := SplitMetaNamespaceKey key in
  match err with
  | Some e => ret (Some e)
  | None =>
      let* ec := this in
      let '(pod, err) := podLister ec namespace name in
      match err with
      | Some e =>
          if IsNotFound e then
            klog_Infof ("ephemeral: nothing to do for pod " +:+ key +:+ ", it is gone") ;;;
            ret None
          else
            (* the arguments of the log line read pod.Namespace, pod.Name, pod.UID *)
            let* p := deref pod in
            klog_Infof ("Error getting pod " +:+ metav1.Namespace (v1.PodMeta p) +:+ "/" +:+
                        metav1.Name (v1.PodMeta p) +:+ " (uid: " +:+
                        quoted (metav1.UID (v1.PodMeta p)) +:+ ") from informer : " +:+
                        msg e) ;;;
            ret (Some e)
      | None =>
          let* p := deref pod in
          (* Ignore pods which are already getting deleted. *)
          if isSet (metav1.DeletionTimestamp (v1.PodMeta p)) then
            klog_Infof ("ephemeral: nothing to do for pod " +:+ key +:+
                        ", it is marked for deletion") ;;;
            ret None
          else syncHandler_volumes key p (v1.Volumes (v1.Spec p))
      end
  end.

(** *** The worker step *)

Definition processNextWorkItem : M bool :=
  let* ec := this in
  match queue_Get (queue ec) with
  | None => blocks
  | Some (key, shutdown, q) =>
      on_queue (fun _ => q) ;;;
      if shutdown : bool then ret false
      else
        defer (on_queue (queue_Done key))
          (let* err := syncHandler key in
           match err with
           | None => on_queue (queue_Forget key) ;;; ret true
           | Some e =>
               HandleError (Errorf (key +:+ " failed with: " +:+ msg e)) ;;;
               on_queue (queue_AddRateLimited key) ;;;
               ret true
           end)
  end.

(** ** Caches that follow the store *)

(** The answer of a claim lister whose cache holds exactly [objs]: the
    object, or a not-found error. *)
Definition storeLister (objs : gmap (string * string) v1.PersistentVolumeClaim)
    (namespace name : string) : option v1.PersistentVolumeClaim * option error :=
  match objs !! (namespace, name) with
  | Some pvc => (Some pvc, None)
  | None => (None, Some (NewNotFound "persistentvolumeclaim" name))
  end.

(** The claim cache serves the store's current contents. *)
Definition cacheReflectsStore (ec : ephemeralController) : Prop :=
  forall namespace name,
    pvcLister ec namespace name = storeLister (objects (kubeClient ec)) namespace name.

(** The claim cache is the snapshot [snapshot] of the store, taken before a
    pass; the store may have grown since. *)
Definition behindStore (snapshot : gmap (string * string) v1.PersistentVolumeClaim)
    (ec : ephemeralController) : Prop :=
  (forall namespace name, pvcLister ec namespace name = storeLister snapshot namespace name)
  /\ snapshot ⊆ objects (kubeClient ec).

(** The informer catching up: the claim cache is replaced by a snapshot of
    the store.  Nothing else moves. *)
Definition informerSync (ec : ephemeralController) : ephemeralController :=
  with_pvcLister (storeLister (objects (kubeClient ec))) ec.

(** Every ephemeral volume of the pod has a claim in the cache that passes
    the ownership check. *)
Definition claimsResolved (ec : ephemeralController) (pod : v1.Pod) : Prop :=
  forall vol,
    vol ∈ v1.Volumes (v1.Spec pod) ->
    isSet (v1.Ephemeral vol) = true ->
    exists pvc,
      pvcLister ec (metav1.Namespace (v1.PodMeta pod)) (VolumeClaimName pod vol)
        = (Some pvc, None)
      /\ VolumeIsForPod pod pvc = None.

(** Two runs of the sync handler on [key] with nothing but the cache
    catching up in between: what the second run is said to find and do. *)
Definition secondRunShortCircuits (key : string) (ec : ephemeralController) : Prop :=
  let ec1 := informerSync (snd (syncHandler key ec)) in
  let ec2 := snd (syncHandler key ec1) in
  kubeClient ec2 = kubeClient ec1
  /\ forall namespace name pod,
       SplitMetaNamespaceKey key = (namespace, name, None) ->
       podLister ec namespace name = (Some pod, None) ->
       claimsResolved ec1 pod.

(** A worker step after which [key] is not waiting for a backoff delay. *)
Definition droppedWithoutRetry (key : string) (ec : ephemeralController) : Prop :=
  key ∉ delayed (queue (snd (processNextWorkItem ec))).

(** The pod-added filter of [enqueuePod] as a function: the key to enqueue,
    if any. *)
Definition enqueueKey (obj : Obj) : option string :=
  match obj with
  | PodObj pod =>
      if isSet (metav1.DeletionTimestamp (v1.PodMeta pod)) then None
      else if existsb (fun vol => isSet (v1.Ephemeral vol)) (v1.Volumes (v1.Spec pod))
           then Some (fst (DeletionHandlingMetaNamespaceKeyFunc pod))
           else None
  | _ => None
  end.



(** The owner reference the controller writes for a pod. *)
Definition podOwnerReference (pod : v1.Pod) : metav1.OwnerReference :=
  {| metav1.APIVersion := "v1";
     metav1.Kind := "Pod";
     metav1.OwnerName := metav1.Name (v1.PodMeta pod);
     metav1.OwnerUID := metav1.UID (v1.PodMeta pod);
     metav1.Controller := Some true;
     metav1.BlockOwnerDeletion := Some true |}.

(** What a method may have done to the controller's surroundings when all it
    did to the store was create: the two listers and the indexer answer as
    before, every object of the store is still there unchanged, and the
    client calls added to the log are creates. *)
Definition onlyCreates (ec ec' : ephemeralController) : Prop :=
  podLister ec' = podLister ec
  /\ pvcLister ec' = pvcLister ec
  /\ podIndexer ec' = podIndexer ec
  /\ objects (kubeClient ec) ⊆ objects (kubeClient ec')
  /\ exists new,
       actions (kubeClient ec') = actions (kubeClient ec) ++ new
       /\ forallb isCreate new = true.

(** The worker loop: [for ec.processNextWorkItem() {}].  The loop has no
    bound of its own; [fuel] bounds the number of iterations, and the result
    tells whether the loop ended ([true]) or the bound was reached first
    ([false]). *)
Fixpoint runWorker (fuel : nat) : M bool :=
  match fuel with
  | O => ret false
  | S fuel' =>
      let* more := processNextWorkItem in
      if more : bool then runWorker fuel' else ret true
  end.

(** The claim [handleVolume] builds for a volume out of its template. *)
Definition claimFor (pod : v1.Pod) (vol : v1.Volume)
    (template : v1.PersistentVolumeClaimTemplate) : v1.PersistentVolumeClaim :=
  {| v1.PVCMeta :=
       {| metav1.Name := VolumeClaimName pod vol;
          metav1.Namespace := "";
          metav1.UID := "";
          metav1.DeletionTimestamp := None;
          metav1.OwnerReferences := [podOwnerReference pod];
          metav1.Annotations := metav1.Annotations (v1.TemplateMeta template);
          metav1.Labels := metav1.Labels (v1.TemplateMeta template) |};
     v1.PVCSpec := v1.TemplateSpec template |}.

(** The client call [a] is the create for the ephemeral volume [vol] of the
    pod. *)
Definition createsFor (pod : v1.Pod) (a : Action) (vol : v1.Volume) : Prop :=
  exists source template,
    v1.Ephemeral vol = Some source
    /\ v1.VolumeClaimTemplate source = Some template
    /\ a = CreateAction (metav1.Namespace (v1.PodMeta pod)) (claimFor pod vol template).

(** Every ephemeral volume of the pod carries a claim template. *)
Definition templatesPresent (pod : v1.Pod) : bool :=
  forallb (fun vol => match v1.Ephemeral vol with
                      | Some source => isSet (v1.VolumeClaimTemplate source)
                      | None => true
                      end)
          (v1.Volumes (v1.Spec pod)).

(** The string contains the key separator. *)
Fixpoint hasSlash (s : string) : bool :=
  match s with
  | EmptyString => false
  | String c rest => Ascii.eqb c "/"%char || hasSlash rest
  end.

(** ** Sample objects *)

Module Sample.

Definition meta (namespace name uid : string) : metav1.ObjectMeta :=
  {| metav1.Name := name; metav1.Namespace := namespace; metav1.UID := uid;
     metav1.DeletionTimestamp := None; metav1.OwnerReferences := [];
     metav1.Labels := ∅; metav1.Annotations := ∅ |}.

Definition spec1Gi : v1.PersistentVolumeClaimSpec :=
  {| v1.AccessModes := ["ReadWriteOnce"]; v1.StorageClassName := Some "fast";
     v1.VolumeName := ""; v1.StorageRequest := 1073741824 |}.

Definition template : v1.PersistentVolumeClaimTemplate :=
  {| v1.TemplateMeta :=
       {| metav1.Name := ""; metav1.Namespace := ""; metav1.UID := "";
          metav1.DeletionTimestamp := None; metav1.OwnerReferences := [];
          metav1.Labels := {["app" := "db"]};
          metav1.Annotations := {["owner" := "team-a"]} |};
     v1.TemplateSpec := spec1Gi |}.

Definition volA : v1.Volume :=
  {| v1.VolName := "vol-a";
     v1.Ephemeral := Some {| v1.VolumeClaimTemplate := Some template |} |}.

Definition volB : v1.Volume :=
  {| v1.VolName := "vol-b";
     v1.Ephemeral := Some {| v1.VolumeClaimTemplate := Some template |} |}.

(** a volume with another source (a config map, say) *)
Definition volPlain : v1.Volume :=
  {| v1.VolName := "config"; v1.Ephemeral := None |}.

Definition podWith (name uid : string) (vols : list v1.Volume) : v1.Pod :=
  {| v1.PodMeta := meta "ns" name uid; v1.Spec := {| v1.Volumes := vols |} |}.

Definition p1 : v1.Pod := podWith "p1" "uid-p1" [volPlain; volA; volB].

Definition deleting (pod : v1.Pod) : v1.Pod :=
  {| v1.PodMeta :=
       {| metav1.Name := metav1.Name (v1.PodMeta pod);
          metav1.Namespace := metav1.Namespace (v1.PodMeta pod);
          metav1.UID := metav1.UID (v1.PodMeta pod);
          metav1.DeletionTimestamp := Some 1700000000%Z;
          metav1.OwnerReferences := []; metav1.Labels := ∅; metav1.Annotations := ∅ |};
     v1.Spec := v1.Spec pod |}.

Definition p2 : v1.Pod := podWith "p2" "uid-p2" [volA; volB; volPlain; volA].


(** a claim named [name], owned by another pod *)
Definition foreign (name : string) : v1.PersistentVolumeClaim :=
  {| v1.PVCMeta :=
       {| metav1.Name := name; metav1.Namespace := "ns"; metav1.UID := "uid-c";
          metav1.DeletionTimestamp := None;
          metav1.OwnerReferences :=
            [ {| metav1.APIVersion := "v1"; metav1.Kind := "Pod";
                 metav1.OwnerName := "other"; metav1.OwnerUID := "uid-other";
                 metav1.Controller := Some true;
                 metav1.BlockOwnerDeletion := Some true |} ];
          metav1.Labels := ∅; metav1.Annotations := ∅ |};
     v1.PVCSpec := spec1Gi |}.

Definition foreignClaim : v1.PersistentVolumeClaim := foreign "p1-vol-a".

(** a pod lister over a list of cached pods *)
Definition podsLister (pods : list v1.Pod) (namespace name : string)
  : option v1.Pod * option error :=
  match List.find (fun pod =>
                     bool_decide (metav1.Namespace (v1.PodMeta pod) = namespace)
                     && bool_decide (metav1.Name (v1.PodMeta pod) = name)) pods with
  | Some pod => (Some pod, None)
  | None => (None, Some (NewNotFound "pod" name))
  end.

(** a pod lister whose cache lookup fails *)
Definition brokenPodsLister (namespace name : string) : option v1.Pod * option error :=
  (None, Some {| reason := metav1.StatusReasonInternalError;
                 msg := "index lookup failed" |}).

(** the pods of the cache that declare a volume resolving to claim [key] *)
Definition podsIndexer (pods : list v1.Pod) (index key : string)
  : list Obj * option error :=
  if bool_decide (index = PodPVCIndex) then
    (PodObj <$>
       List.filter (fun pod =>
          existsb (fun vol =>
             isSet (v1.Ephemeral vol)
             && bool_decide (metav1.Namespace (v1.PodMeta pod) +:+ "/" +:+
                             VolumeClaimName pod vol = key))
            (v1.Volumes (v1.Spec pod))) pods,
     None)
  else ([], Some (Errorf ("Index with name " +:+ index +:+ " does not exist"))).

Definition brokenIndexer (index key : string) : list Obj * option error :=
  ([], Some (Errorf ("Index with name " +:+ index +:+ " does not exist"))).

Definition queueOf (keys : list string) : RateLimitingQueue :=
  {| waiting := keys; dirty := list_to_set keys; processing := ∅;
     delayed := []; failures := ∅; shuttingDown := false |}.

(** a controller over the given pod cache and store, its claim cache in
    step with the store, and the given keys waiting *)
Definition controller (pods : list v1.Pod)
    (objs : gmap (string * string) v1.PersistentVolumeClaim)
    (keys : list string) : ephemeralController :=
  {| kubeClient := {| objects := objs; refuses := fun _ _ _ => None; actions := [] |};
     pvcLister := storeLister objs;
     podLister := podsLister pods;
     podIndexer := podsIndexer pods;
     recorder := [];
     queue := queueOf keys;
     handledErrors := [];
     EphemeralVolumeCreateAttempts := 0;
     EphemeralVolumeCreateFailures := 0 |}.

(** a controller whose pod cache lookup fails *)
Definition brokenController (keys : list string) : ephemeralController :=
  {| kubeClient := {| objects := ∅; refuses := fun _ _ _ => None; actions := [] |};
     pvcLister := storeLister ∅;
     podLister := brokenPodsLister;
     podIndexer := brokenIndexer;
     recorder := [];
     queue := queueOf keys;
     handledErrors := [];
     EphemeralVolumeCreateAttempts := 0;
     EphemeralVolumeCreateFailures := 0 |}.

(** the same with a store that turns every create down *)
Definition refusing (ec : ephemeralController) : ephemeralController :=
  with_kubeClient
    {| objects := objects (kubeClient ec);
       refuses := fun _ _ _ =>
         Some {| reason := metav1.StatusReasonInvalid; msg := "quota exceeded" |};
       actions := actions (kubeClient ec) |} ec.

End Sample.

(** ** Logging flags (package logs) *)

Module logs.

Definition logFlushFreqFlagName : string := "log-flush-frequency".

Definition deprecated : string :=
  "will be removed in a future release, see https://github.com/kubernetes/enhancements/tree/master/keps/sig-instrumentation/2845-deprecate-klog-specific-flags-in-k8s-components".

(** flag.Flag of the Go standard library; the value is kept as its text. *)
Record Flag := {
  Name : string;
  Usage : string;
  Value : string;
  DefValue : string;
  IsBoolFlag : bool
}.

(** pflag.Flag, the fields [AddFlags] passes on or sets. *)
Record PFlag := {
  PName : string;
  Shorthand : string;
  PUsage : string;
  PValue : string;
  PDefValue : string;
  NoOptDefVal : string;
  Deprecated : string
}.

(** pflag.PFlagFromGoFlag: a one-letter flag also becomes its own
    shorthand, a boolean flag may be given without a value. *)
Definition PFlagFromGoFlag (f : Flag) : PFlag :=
  {| PName := Name f;
     Shorthand := if bool_decide (String.length (Name f) = 1) then Name f else "";
     PUsage := Usage f;
     PValue := Value f;
     PDefValue := DefValue f;
     NoOptDefVal := if IsBoolFlag f then "true" else "";
     Deprecated := "" |}.

Definition withDeprecated (text : string) (pf : PFlag) : PFlag :=
  {| PName := PName pf; Shorthand := Shorthand pf; PUsage := PUsage pf;
     PValue := PValue pf; PDefValue := PDefValue pf; NoOptDefVal := NoOptDefVal pf;
     Deprecated := text |}.

(** A *pflag.FlagSet as [AddFlags] uses it: looking a flag up by name and
    adding a flag, which panics ([None]) when the set will not take it. *)
Record PFlagSet := {
  pflags : Type;
  Lookup : pflags -> string -> option PFlag;
  AddFlag : PFlag -> pflags -> option pflags
}.

(** A *flag.FlagSet of the standard library as [AddGoFlags] uses it:
    [Var value name usage] defines a flag and panics ([None]) when the set
    will not take it. *)
Record GoFlagSet := {
  goflags : Type;
  GoLookup : goflags -> string -> option Flag;
  Var : string -> string -> string -> goflags -> option goflags
}.

(** [packageFlags.VisitAll(fn)]: [fn] on every flag in turn; a panic in [fn]
    ends the visit. *)
Fixpoint VisitAll {S : Type} (fn : Flag -> S -> option S) (flags : list Flag) (s : S)
  : option S :=
  match flags with
  | [] => Some s
  | f :: rest =>
      match fn f s with
      | Some s' => VisitAll fn rest s'
      | None => None
      end
  end.

(** AddFlags registers this package's flags on arbitrary FlagSets.  May be
    called more than once.  [packageFlags] are the flags registered in
    [init], in the order [VisitAll] visits them. *)
Definition AddFlags (P : PFlagSet) (packageFlags : list Flag) (fs : pflags P)
  : option (pflags P) :=
  (* Determine whether the flags are already present by looking up one
     which always should exist. *)
  if isSet (Lookup P fs "v") then Some fs
  else
    VisitAll (fun f fs =>
                let pf := PFlagFromGoFlag f in
                let pf :=
                  if bool_decide (Name f = "v")
                     || bool_decide (Name f = logFlushFreqFlagName) then pf
                  else if bool_decide (Name f = "vmodule") then pf
                  else withDeprecated deprecated pf in
                AddFlag P pf fs)
             packageFlags fs.

(** AddGoFlags is a variant of AddFlags for traditional Go flag.FlagSet. *)
Definition AddGoFlags (G : GoFlagSet) (packageFlags : list Flag) (fs : goflags G)
  : option (goflags G) :=
  VisitAll (fun f fs =>
              let usage :=
                if bool_decide (Name f = "v")
                   || bool_decide (Name f = logFlushFreqFlagName) then Usage f
                else if bool_decide (Name f = "vmodule") then Usage f
                else Usage f +:+ " (DEPRECATED: " +:+ deprecated +:+ ")" in
              Var G (Value f) (Name f) usage fs)
           packageFlags fs.

(** GlogSetter is a setter to set glog level; [levelSet] is
    [klog.Level.Set]. *)
Definition GlogSetter (levelSet : string -> option error) (val : string)
  : string * option error :=
  match levelSet val with
  | Some err =>
      ("", Some (Errorf ("failed set klog.logging.verbosity " +:+ val +:+ ": " +:+ msg err)))
  | None => ("successfully set klog.logging.verbosity to " +:+ val, None)
  end.

(** *** Sample flag sets *)

(** A pflag set as the list of its flags: a name can be taken once. *)
Definition listPFlagSet : PFlagSet :=
  {| pflags := list PFlag;
     Lookup := fun fs name => List.find (fun pf => bool_decide (PName pf = name)) fs;
     AddFlag := fun pf fs =>
       if isSet (List.find (fun other => bool_decide (PName other = PName pf)) fs)
       then None else Some (fs ++ [pf]) |}.

(** A standard flag set as the list of its flags: a name can be defined
    once. *)
Definition listGoFlagSet : GoFlagSet :=
  {| goflags := list Flag;
     GoLookup := fun fs name => List.find (fun f => bool_decide (Name f = name)) fs;
     Var := fun value name usage fs =>
       if isSet (List.find (fun f => bool_decide (Name f = name)) fs)
       then None
       else Some (fs ++ [{| Name := name; Usage := usage; Value := value;
                            DefValue := value; IsBoolFlag := false |}]) |}.

Definition klogFlags : list Flag :=
  [ {| Name := "log-flush-frequency";
       Usage := "Maximum number of seconds between log flushes";
       Value := "5s"; DefValue := "5s"; IsBoolFlag := false |};
    {| Name := "logtostderr"; Usage := "log to standard error instead of files";
       Value := "true"; DefValue := "true"; IsBoolFlag := true |};
    {| Name := "v"; Usage := "number for the log level verbosity";
       Value := "0"; DefValue := "0"; IsBoolFlag := false |};
    {| Name := "vmodule";
       Usage := "comma-separated list of pattern=N settings for file-filtered logging";
       Value := ""; DefValue := ""; IsBoolFlag := false |} ].

End logs.

(** ** Properties *)

(** *** The store *)

Lemma Create_actions namespace pvc c :
  actions (snd (Create namespace pvc c)) = actions c ++ [CreateAction namespace pvc].
Proof.
  unfold Create.
  destruct (objects c !! _); [reflexivity|].
  destruct (refuses c _ _ _); reflexivity.
Qed.

(** A create never replaces or removes what the store holds. *)
Lemma Create_objects_mono namespace pvc c :
  objects c ⊆ objects (snd (Create namespace pvc c)).
Proof.
  unfold Create.
  destruct (objects c !! _) eqn:Hlook; [reflexivity|].
  destruct (refuses c _ _ _); [reflexivity|].
  simpl. by apply insert_subseteq.
Qed.

(** A failed create leaves the store's objects as they were. *)
Lemma Create_failed namespace pvc c e :
  fst (Create namespace pvc c) = Some e ->
  objects (snd (Create namespace pvc c)) = objects c.
Proof.
  unfold Create.
  destruct (objects c !! _); [reflexivity|].
  destruct (refuses c _ _ _); [reflexivity|].
  discriminate.
Qed.

(** A successful create stores the object under the namespace of the call. *)
Lemma Create_succeeded namespace pvc c :
  fst (Create namespace pvc c) = None ->
  objects (snd (Create namespace pvc c))
    = <[(namespace, metav1.Name (v1.PVCMeta pvc)) := inNamespace namespace pvc]> (objects c)
  /\ objects c !! (namespace, metav1.Name (v1.PVCMeta pvc)) = None.
Proof.
  unfold Create.
  destruct (objects c !! _) eqn:Hlook; [discriminate|].
  destruct (refuses c _ _ _); [discriminate|].
  auto.
Qed.

(** *** handleVolume *)

Lemma handleVolume_not_ephemeral ec pod vol :
  v1.Ephemeral vol = None -> handleVolume pod vol ec = (Returns None, ec).
Proof. intros H. unfold handleVolume, bind, klog_Infof, ret. simpl. by rewrite H. Qed.

(** C1.  When the claim cache reports not-found for the derived name of an
    inline-volume declaration, [handleVolume] issues exactly one create call
    for it, in the pod's namespace, for a claim named after the declaration,
    whose spec, labels and annotations are the template's and whose only
    owner reference names the pod (v1, Pod, name, UID) with controller and
    blockOwnerDeletion true. *)
Theorem handleVolume_creates_claim ec pod vol source template e :
  v1.Ephemeral vol = Some source ->
  v1.VolumeClaimTemplate source = Some template ->
  pvcLister ec (metav1.Namespace (v1.PodMeta pod)) (VolumeClaimName pod vol) = (None, Some e) ->
  IsNotFound e = true ->
  exists pvc,
    actions (kubeClient (snd (handleVolume pod vol ec)))
      = actions (kubeClient ec) ++ [CreateAction (metav1.Namespace (v1.PodMeta pod)) pvc]
    /\ metav1.Name (v1.PVCMeta pvc) = VolumeClaimName pod vol
    /\ v1.PVCSpec pvc = v1.TemplateSpec template
    /\ metav1.Labels (v1.PVCMeta pvc) = metav1.Labels (v1.TemplateMeta template)
    /\ metav1.Annotations (v1.PVCMeta pvc) = metav1.Annotations (v1.TemplateMeta template)
    /\ metav1.OwnerReferences (v1.PVCMeta pvc) = [podOwnerReference pod].
Proof.
  intros Hsrc Htpl Hget Hnf.
  unfold handleVolume, bind, klog_Infof, ret, this. simpl.
  rewrite Hsrc, Hget. simpl. rewrite Hnf, Htpl. simpl.
  unfold client_Create, bind. simpl.
  match goal with
  | |- context [Create ?ns ?pvc ?c] =>
      exists pvc; pose proof (Create_actions ns pvc c) as Hact;
      destruct (Create ns pvc c) as [[err|] c']
  end; simpl in *; rewrite Hact; repeat split; reflexivity.
Qed.

Lemma handleVolume_creates_claim_witness :
  exists pvc,
    actions (kubeClient (snd (handleVolume Sample.p1 Sample.volA
                                (Sample.controller [Sample.p1] ∅ []))))
      = [CreateAction "ns" pvc]
    /\ metav1.Name (v1.PVCMeta pvc) = "p1-vol-a"
    /\ v1.PVCSpec pvc = Sample.spec1Gi
    /\ metav1.OwnerReferences (v1.PVCMeta pvc) = [podOwnerReference Sample.p1].
Proof.
  assert (Hget : pvcLister (Sample.controller [Sample.p1] ∅ []) "ns" "p1-vol-a"
                 = (None, Some (NewNotFound "persistentvolumeclaim" "p1-vol-a")))
    by (vm_compute; reflexivity).
  destruct (handleVolume_creates_claim
              (Sample.controller [Sample.p1] ∅ []) Sample.p1 Sample.volA
              {| v1.VolumeClaimTemplate := Some Sample.template |} Sample.template
              (NewNotFound "persistentvolumeclaim" "p1-vol-a")
              eq_refl eq_refl Hget eq_refl)
    as (pvc & Hact & Hname & Hspec & _ & _ & Hown).
  exists pvc. repeat split; assumption.
Defined.

(** C3.  When the cache holds a claim under the derived name that the pod
    does not control, [handleVolume] returns the ownership error and leaves
    the whole state as it was: no create call, the claim untouched. *)
Theorem handleVolume_foreign_claim ec pod vol pvc :
  isSet (v1.Ephemeral vol) = true ->
  pvcLister ec (metav1.Namespace (v1.PodMeta pod)) (VolumeClaimName pod vol) = (Some pvc, None) ->
  IsControlledBy (v1.PVCMeta pvc) (v1.PodMeta pod) = false ->
  exists e,
    VolumeIsForPod pod pvc = Some e
    /\ handleVolume pod vol ec = (Returns (Some e), ec).
Proof.
  intros Heph Hget Hctl.
  destruct (v1.Ephemeral vol) as [source|] eqn:Hsrc; [|discriminate].
  unfold handleVolume, bind, klog_Infof, ret, this. simpl.
  rewrite Hsrc, Hget. simpl.
  unfold VolumeIsForPod. rewrite Hctl. rewrite orb_true_r.
  eexists. split; reflexivity.
Qed.

Lemma handleVolume_foreign_claim_witness :
  let ec := Sample.controller [Sample.p1] {[("ns", "p1-vol-a") := Sample.foreignClaim]} [] in
  exists e, VolumeIsForPod Sample.p1 Sample.foreignClaim = Some e
            /\ handleVolume Sample.p1 Sample.volA ec = (Returns (Some e), ec).
Proof.
  intros ec.
  apply (handleVolume_foreign_claim ec Sample.p1 Sample.volA Sample.foreignClaim);
    vm_compute; reflexivity.
Defined.

(** *** Pods that are gone or going *)

(** C5.  A pod with a deletion marker triggers no create call: the pod-added
    handler leaves the queue (and everything else) as it was, and the sync
    handler, once the key resolves to such a pod, returns success with the
    state unchanged, whatever the pod's declarations are. *)
Theorem deleted_pod_is_left_alone ec pod :
  isSet (metav1.DeletionTimestamp (v1.PodMeta pod)) = true ->
  enqueuePod (PodObj pod) ec = (Returns tt, ec)
  /\ forall key namespace name,
       SplitMetaNamespaceKey key = (namespace, name, None) ->
       podLister ec namespace name = (Some pod, None) ->
       syncHandler key ec = (Returns None, ec).
Proof.
  intros Hdel. split.
  - unfold enqueuePod. by rewrite Hdel.
  - intros key namespace name Hkey Hpod.
    unfold syncHandler. rewrite Hkey.
    unfold bind, this. rewrite Hpod. simpl. by rewrite Hdel.
Qed.

Lemma deleted_pod_is_left_alone_witness :
  let pod := Sample.deleting Sample.p1 in
  let ec := Sample.controller [pod] ∅ [] in
  enqueuePod (PodObj pod) ec = (Returns tt, ec)
  /\ syncHandler "ns/p1" ec = (Returns None, ec).
Proof.
  intros pod ec.
  destruct (deleted_pod_is_left_alone ec pod eq_refl) as [Hadd Hsync].
  split; [exact Hadd|].
  apply (Hsync "ns/p1" "ns" "p1"); vm_compute; reflexivity.
Defined.

(** C6.  When the pod cache reports not-found for a well-formed key, the sync
    handler returns nil with the state unchanged (no store call), and the
    worker step forgets the key: its requeue count is cleared, nothing is
    added to the keys waiting for a backoff delay, and the store is as it
    was. *)
Theorem missing_pod_is_success ec key namespace name pod e :
  SplitMetaNamespaceKey key = (namespace, name, None) ->
  podLister ec namespace name = (pod, Some e) ->
  IsNotFound e = true ->
  syncHandler key ec = (Returns None, ec)
  /\ forall q,
       queue_Get (queue ec) = Some (key, false, q) ->
       processNextWorkItem ec
         = (Returns true, with_queue (queue_Done key (queue_Forget key q)) ec)
       /\ failures (queue (snd (processNextWorkItem ec))) !! key = None
       /\ delayed (queue (snd (processNextWorkItem ec))) = delayed (queue ec)
       /\ kubeClient (snd (processNextWorkItem ec)) = kubeClient ec.
Proof.
  intros Hkey Hpod Hnf.
  assert (Hsync : forall ec', podLister ec' = podLister ec ->
                              syncHandler key ec' = (Returns None, ec')).
  { intros ec' Hsame. unfold syncHandler. rewrite Hkey.
    unfold bind, this. rewrite Hsame, Hpod. simpl. by rewrite Hnf. }
  split; [by apply Hsync|].
  intros q Hget.
  assert (Hstep : processNextWorkItem ec
                  = (Returns true, with_queue (queue_Done key (queue_Forget key q)) ec)).
  { unfold processNextWorkItem, bind, this. rewrite Hget. simpl.
    unfold defer, bind. rewrite Hsync by reflexivity. reflexivity. }
  rewrite Hstep. simpl.
  split; [reflexivity|]. split; [apply lookup_delete_eq|].
  split; [|reflexivity].
  unfold queue_Get in Hget. destruct (waiting (queue ec)).
  - destruct (shuttingDown (queue ec)); discriminate.
  - by injection Hget as _ <-.
Qed.

Lemma missing_pod_is_success_witness :
  let ec := Sample.controller [] ∅ ["ns/p1"] in
  syncHandler "ns/p1" ec = (Returns None, ec)
  /\ failures (queue (snd (processNextWorkItem ec))) !! "ns/p1" = None
  /\ delayed (queue (snd (processNextWorkItem ec))) = [].
Proof.
  intros ec.
  assert (Hpod : podLister ec "ns" "p1" = (None, Some (NewNotFound "pod" "p1")))
    by (vm_compute; reflexivity).
  destruct (missing_pod_is_success ec "ns/p1" "ns" "p1" None (NewNotFound "pod" "p1")
              eq_refl Hpod eq_refl) as [Hsync Hstep].
  split; [exact Hsync|].
  destruct (Hstep {| waiting := []; dirty := list_to_set ["ns/p1"] ∖ {["ns/p1"]};
                     processing := {["ns/p1"]} ∪ ∅; delayed := [];
                     failures := ∅; shuttingDown := false |} eq_refl)
    as (_ & Hforgot & Hdelayed & _).
  split; [exact Hforgot | exact Hdelayed].
Defined.

(** *** Keys that do not parse *)

(** C4, as the code has it.  A key that does not parse makes the sync handler
    return the parse error with the state unchanged; the worker step then
    logs the error and re-adds the key with rate limiting: its requeue count
    goes up by one (it is not forgotten) and, unless the queue is shutting
    down, the key waits for its backoff delay. *)
Theorem malformed_key_is_requeued ec key q e :
  snd (SplitMetaNamespaceKey key) = Some e ->
  queue_Get (queue ec) = Some (key, false, q) ->
  syncHandler key ec = (Returns (Some e), ec)
  /\ processNextWorkItem ec
       = (Returns true,
          with_queue (queue_Done key (queue_AddRateLimited key q))
            (with_handledErrors
               (handledErrors ec ++ [Errorf (key +:+ " failed with: " +:+ msg e)]) ec))
  /\ failures (queue (snd (processNextWorkItem ec))) !! key
       = Some (S (default 0 (failures (queue ec) !! key)))
  /\ (shuttingDown (queue ec) = false ->
      key ∈ delayed (queue (snd (processNextWorkItem ec)))).
Proof.
  intros Hkey Hget.
  assert (Hsync : forall ec', syncHandler key ec' = (Returns (Some e), ec')).
  { intros ec'. unfold syncHandler.
    destruct (SplitMetaNamespaceKey key) as [[namespace name] err].
    simpl in Hkey. subst err. reflexivity. }
  split; [apply Hsync|].
  assert (Hstep : processNextWorkItem ec
     = (Returns true,
        with_queue (queue_Done key (queue_AddRateLimited key q))
          (with_handledErrors
             (handledErrors ec ++ [Errorf (key +:+ " failed with: " +:+ msg e)]) ec))).
  { unfold processNextWorkItem, bind, this. rewrite Hget. simpl.
    unfold defer, bind. rewrite Hsync. reflexivity. }
  rewrite Hstep. split; [reflexivity|]. simpl.
  assert (Hq : failures q = failures (queue ec)
               /\ shuttingDown q = shuttingDown (queue ec)
               /\ delayed q = delayed (queue ec)).
  { unfold queue_Get in Hget. destruct (waiting (queue ec)).
    - destruct (shuttingDown (queue ec)); discriminate.
    - by injection Hget as _ <-. }
  destruct Hq as (Hf & Hs & Hd).
  split.
  - rewrite lookup_insert_eq. by rewrite Hf.
  - intros Hup. rewrite Hs, Hup. set_solver.
Qed.

Lemma malformed_key_is_requeued_witness :
  let ec := Sample.controller [Sample.p1] ∅ ["a/b/c"] in
  failures (queue (snd (processNextWorkItem ec))) !! "a/b/c" = Some 1
  /\ "a/b/c" ∈ delayed (queue (snd (processNextWorkItem ec))).
Proof.
  intros ec.
  destruct (malformed_key_is_requeued ec "a/b/c"
              {| waiting := []; dirty := list_to_set ["a/b/c"] ∖ {["a/b/c"]};
                 processing := {["a/b/c"]} ∪ ∅; delayed := [];
                 failures := ∅; shuttingDown := false |}
              (Errorf ("unexpected key format: " +:+ quoted "a/b/c"))
              eq_refl eq_refl)
    as (_ & _ & Hcount & Hwait).
  split; [exact Hcount | exact (Hwait eq_refl)].
Defined.

(** C4, as stated, fails: the key [a/b/c] does not parse, and after the
    worker step it waits for its backoff delay. *)
Lemma malformed_key_not_dropped :
  let ec := Sample.controller [Sample.p1] ∅ ["a/b/c"] in
  snd (SplitMetaNamespaceKey "a/b/c")
    = Some (Errorf ("unexpected key format: " +:+ quoted "a/b/c"))
  /\ ~ droppedWithoutRetry "a/b/c" ec.
Proof.
  intros ec. split; [reflexivity|].
  unfold droppedWithoutRetry. intros Hnot. apply Hnot.
  vm_compute. apply list_elem_of_here.
Qed.

(** *** A failing pod lookup *)

Lemma syncHandler_nil_pod ec key namespace name e :
  SplitMetaNamespaceKey key = (namespace, name, None) ->
  podLister ec namespace name = (None, Some e) ->
  IsNotFound e = false ->
  syncHandler key ec
    = (Panics "invalid memory address or nil pointer dereference", ec).
Proof.
  intros Hkey Hpod Hnf. unfold syncHandler. rewrite Hkey.
  unfold bind, this. rewrite Hpod. simpl. by rewrite Hnf.
Qed.

(** C10, on the code.  With a pod lister that answers (nil, error) and an
    error that is not not-found, the sync handler reads the nil pod for its
    log line and panics instead of returning the error; the worker step
    panics with it, and the key is not re-added with rate limiting. *)
Theorem syncHandler_lookup_error_panics :
  let ec := Sample.brokenController ["ns/p1"] in
  let e := {| reason := metav1.StatusReasonInternalError; msg := "index lookup failed" |} in
  SplitMetaNamespaceKey "ns/p1" = ("ns", "p1", None)
  /\ podLister ec "ns" "p1" = (None, Some e)
  /\ IsNotFound e = false
  /\ syncHandler "ns/p1" ec
       = (Panics "invalid memory address or nil pointer dereference", ec)
  /\ fst (processNextWorkItem ec)
       = Panics "invalid memory address or nil pointer dereference"
  /\ delayed (queue (snd (processNextWorkItem ec))) = [].
Proof.
  intros ec e.
  split; [reflexivity|]. split; [reflexivity|]. split; [reflexivity|].
  split; [by apply (syncHandler_nil_pod ec "ns/p1" "ns" "p1" e)|].
  split; vm_compute; reflexivity.
Qed.

(** *** What a pass may touch *)

Lemma onlyCreates_refl ec : onlyCreates ec ec.
Proof.
  unfold onlyCreates. repeat split; try reflexivity.
  exists []. by rewrite app_nil_r.
Qed.

Lemma onlyCreates_trans ec1 ec2 ec3 :
  onlyCreates ec1 ec2 -> onlyCreates ec2 ec3 -> onlyCreates ec1 ec3.
Proof.
  intros (Hp & Hc & Hi & Ho & new & Ha & Hn) (Hp' & Hc' & Hi' & Ho' & new' & Ha' & Hn').
  unfold onlyCreates. repeat split; try congruence.
  - by etrans.
  - exists (new ++ new'). split.
    + by rewrite Ha', Ha, app_assoc.
    + rewrite forallb_app. by rewrite Hn, Hn'.
Qed.

Lemma client_Create_eq namespace pvc ec :
  client_Create namespace pvc ec
    = (Returns (fst (Create namespace pvc (kubeClient ec))),
       with_kubeClient (snd (Create namespace pvc (kubeClient ec))) ec).
Proof. unfold client_Create. by destruct (Create _ _ _). Qed.

Lemma client_Create_onlyCreates namespace pvc ec :
  onlyCreates ec (with_kubeClient (snd (Create namespace pvc (kubeClient ec))) ec).
Proof.
  unfold onlyCreates. simpl. repeat split.
  - apply Create_objects_mono.
  - exists [CreateAction namespace pvc]. split; [apply Create_actions | reflexivity].
Qed.

Lemma handleVolume_onlyCreates pod vol ec :
  onlyCreates ec (snd (handleVolume pod vol ec)).
Proof.
  unfold handleVolume, bind, klog_Infof, ret, this. simpl.
  destruct (v1.Ephemeral vol) as [source|]; [|apply onlyCreates_refl].
  destruct (pvcLister ec _ _) as [pvc err].
  destruct (isSet err && _); [apply onlyCreates_refl|].
  destruct pvc as [pvc|].
  { destruct (VolumeIsForPod pod pvc); apply onlyCreates_refl. }
  destruct (v1.VolumeClaimTemplate source) as [template|]; simpl;
    [|apply onlyCreates_refl].
  unfold bind. simpl. rewrite client_Create_eq. simpl.
  match goal with
  | |- context [Create ?ns ?pvc ?c] =>
      pose proof (client_Create_onlyCreates ns pvc ec) as Hframe;
      simpl in Hframe; destruct (fst (Create ns pvc c))
  end; exact Hframe.
Qed.

Lemma syncHandler_volumes_onlyCreates key pod vols ec :
  onlyCreates ec (snd (syncHandler_volumes key pod vols ec)).
Proof.
  revert ec. induction vols as [|vol rest IH]; intros ec; simpl.
  - apply onlyCreates_refl.
  - unfold bind.
    pose proof (handleVolume_onlyCreates pod vol ec) as Hvol.
    destruct (handleVolume pod vol ec) as [[[e|]| |] ec1]; simpl in *; try exact Hvol.
    eapply onlyCreates_trans; [exact Hvol | apply IH].
Qed.

(** C9.  Whatever the key and the state, a run of the sync handler leaves
    the pod lister, the claim lister and the indexer answering as before,
    keeps every object of the store as it was, and issues only create calls:
    no update, patch or delete. *)
Theorem syncHandler_only_creates key ec :
  onlyCreates ec (snd (syncHandler key ec)).
Proof.
  unfold syncHandler.
  destruct (SplitMetaNamespaceKey key) as [[namespace name] [e|]];
    [apply onlyCreates_refl|].
  unfold bind, this.
  destruct (podLister ec namespace name) as [pod [e|]].
  - destruct (IsNotFound e); simpl; [apply onlyCreates_refl|].
    destruct pod; apply onlyCreates_refl.
  - destruct pod as [p|]; simpl; [|apply onlyCreates_refl].
    destruct (isSet _); simpl; [apply onlyCreates_refl|].
    apply syncHandler_volumes_onlyCreates.
Qed.

(** *** A failing declaration *)

(** Events are recorded by the loop of the sync handler, not by
    [handleVolume]. *)
Lemma handleVolume_recorder pod vol ec :
  recorder (snd (handleVolume pod vol ec)) = recorder ec.
Proof.
  unfold handleVolume, bind, klog_Infof, ret, this. simpl.
  destruct (v1.Ephemeral vol) as [source|]; [|reflexivity].
  destruct (pvcLister ec _ _) as [pvc err].
  destruct (isSet err && _); [reflexivity|].
  destruct pvc as [pvc|].
  { by destruct (VolumeIsForPod pod pvc). }
  destruct (v1.VolumeClaimTemplate source); simpl; [|reflexivity].
  unfold bind. simpl. rewrite client_Create_eq. simpl.
  by destruct (fst (Create _ _ _)).
Qed.

Lemma syncHandler_volumes_recorder key pod vols ec ec' :
  syncHandler_volumes key pod vols ec = (Returns None, ec') ->
  recorder ec' = recorder ec.
Proof.
  revert ec. induction vols as [|vol vols IH]; intros ec Hrun; simpl in Hrun.
  - unfold ret in Hrun. by injection Hrun as ->.
  - unfold bind in Hrun.
    pose proof (handleVolume_recorder pod vol ec) as Hvol.
    destruct (handleVolume pod vol ec) as [[[e|]| |] ec0]; simpl in *;
      try discriminate.
    by rewrite (IH _ Hrun).
Qed.

Lemma syncHandler_volumes_app key pod before rest ec ec1 :
  syncHandler_volumes key pod before ec = (Returns None, ec1) ->
  syncHandler_volumes key pod (before ++ rest) ec = syncHandler_volumes key pod rest ec1.
Proof.
  revert ec. induction before as [|vol before IH]; intros ec Hbefore; simpl in *.
  - unfold ret in Hbefore. by injection Hbefore as ->.
  - unfold bind in *.
    destruct (handleVolume pod vol ec) as [[[e|]| |] ec']; simpl in *;
      try discriminate.
    by apply IH.
Qed.

(** C7.  When the volumes before [vol] went through and [handleVolume] fails
    on [vol] with [e], the sync handler returns an error that names the key,
    the volume and [e], records one warning event against the pod with the
    volume's name and [e], and stops: the final state is the one
    [handleVolume] left plus that event, whatever volumes come after [vol].
    Everything the store held after the earlier volumes is still there. *)
Theorem failing_volume_ends_the_pass
    ec key namespace name pod before vol rest ec1 ec2 e :
  SplitMetaNamespaceKey key = (namespace, name, None) ->
  podLister ec namespace name = (Some pod, None) ->
  isSet (metav1.DeletionTimestamp (v1.PodMeta pod)) = false ->
  v1.Volumes (v1.Spec pod) = before ++ vol :: rest ->
  syncHandler_volumes key pod before ec = (Returns None, ec1) ->
  handleVolume pod vol ec1 = (Returns (Some e), ec2) ->
  syncHandler key ec
    = (Returns (Some (Errorf ("pod " +:+ key +:+ ", ephemeral volume " +:+
                              v1.VolName vol +:+ ": " +:+ msg e))),
       with_recorder
         (recorder ec2 ++
            [{| involved := pod; eventtype := v1.EventTypeWarning;
                eventreason := FailedBinding;
                message := "ephemeral volume " +:+ v1.VolName vol +:+ ": " +:+ msg e |}])
         ec2)
  /\ objects (kubeClient ec) ⊆ objects (kubeClient ec1)
  /\ objects (kubeClient ec1) ⊆ objects (kubeClient (snd (syncHandler key ec)))
  /\ recorder ec2 = recorder ec.
Proof.
  intros Hkey Hpod Hlive Hvols Hbefore Hvol.
  assert (Hrun : syncHandler key ec
    = (Returns (Some (Errorf ("pod " +:+ key +:+ ", ephemeral volume " +:+
                              v1.VolName vol +:+ ": " +:+ msg e))),
       with_recorder
         (recorder ec2 ++
            [{| involved := pod; eventtype := v1.EventTypeWarning;
                eventreason := FailedBinding;
                message := "ephemeral volume " +:+ v1.VolName vol +:+ ": " +:+ msg e |}])
         ec2)).
  { unfold syncHandler. rewrite Hkey. unfold bind at 1, this. rewrite Hpod. simpl.
    unfold bind at 1. simpl. rewrite Hlive, Hvols.
    rewrite (syncHandler_volumes_app _ _ _ _ _ _ Hbefore). simpl.
    unfold bind at 1. rewrite Hvol. reflexivity. }
  split; [exact Hrun|].
  pose proof (syncHandler_volumes_onlyCreates key pod before ec) as Hpre.
  rewrite Hbefore in Hpre.
  pose proof (handleVolume_onlyCreates pod vol ec1) as Hat.
  rewrite Hvol in Hat. simpl in *.
  destruct Hpre as (_ & _ & _ & Hsub & _).
  destruct Hat as (_ & _ & _ & Hsub' & _).
  split; [exact Hsub|]. split; [by rewrite Hrun|].
  rewrite <- (syncHandler_volumes_recorder _ _ _ _ _ Hbefore).
  pose proof (handleVolume_recorder pod vol ec1) as Hrec. by rewrite Hvol in Hrec.
Qed.

Lemma failing_volume_ends_the_pass_witness :
  let ec := Sample.controller [Sample.p2]
              {[("ns", "p2-vol-b") := Sample.foreign "p2-vol-b"]} [] in
  fst (syncHandler "ns/p2" ec)
    = Returns (Some (Errorf ("pod ns/p2, ephemeral volume vol-b: " +:+
                             "PVC ns/p2-vol-b was not created for pod ns/p2 (pod is not owner)")))
  /\ message <$> recorder (snd (syncHandler "ns/p2" ec))
     = ["ephemeral volume vol-b: PVC ns/p2-vol-b was not created for pod ns/p2 (pod is not owner)"]
  /\ length (actions (kubeClient (snd (syncHandler "ns/p2" ec)))) = 1.
Proof.
  intros ec.
  pose (ec1 := snd (syncHandler_volumes "ns/p2" Sample.p2 [Sample.volA] ec)).
  assert (Hbefore : syncHandler_volumes "ns/p2" Sample.p2 [Sample.volA] ec = (Returns None, ec1))
    by (vm_compute; reflexivity).
  assert (Hvol : handleVolume Sample.p2 Sample.volB ec1
                 = (Returns (Some (Errorf "PVC ns/p2-vol-b was not created for pod ns/p2 (pod is not owner)")), ec1))
    by (vm_compute; reflexivity).
  destruct (failing_volume_ends_the_pass ec "ns/p2" "ns" "p2" Sample.p2
              [Sample.volA] Sample.volB [Sample.volPlain; Sample.volA] ec1 ec1 _
              eq_refl eq_refl eq_refl eq_refl Hbefore Hvol) as (Hrun & _).
  rewrite Hrun. repeat split; vm_compute; reflexivity.
Defined.

(** *** Event handlers *)

Lemma with_queue_same ec : with_queue (queue ec) ec = ec.
Proof. by destruct ec. Qed.

Lemma DeletionHandlingMetaNamespaceKeyFunc_ok pod :
  snd (DeletionHandlingMetaNamespaceKeyFunc pod) = None.
Proof. unfold DeletionHandlingMetaNamespaceKeyFunc. by case_bool_decide. Qed.

Lemma enqueuePod_volumes_eq pod vols ec :
  enqueuePod_volumes pod vols ec
    = (Returns tt,
       if existsb (fun vol => isSet (v1.Ephemeral vol)) vols
       then with_queue (queue_Add (fst (DeletionHandlingMetaNamespaceKeyFunc pod)) (queue ec)) ec
       else ec).
Proof.
  induction vols as [|vol vols IH]; simpl; [reflexivity|].
  destruct (isSet (v1.Ephemeral vol)); simpl; [|exact IH].
  pose proof (DeletionHandlingMetaNamespaceKeyFunc_ok pod) as Hok.
  destruct (DeletionHandlingMetaNamespaceKeyFunc pod) as [key err].
  simpl in Hok. by subst err.
Qed.

(** [enqueuePod] adds the key picked by the pod-added filter, if any. *)
Lemma enqueuePod_eq obj ec :
  enqueuePod obj ec
    = (Returns tt,
       match enqueueKey obj with
       | Some key => with_queue (queue_Add key (queue ec)) ec
       | None => ec
       end).
Proof.
  destruct obj as [pod| |]; simpl; try reflexivity.
  destruct (isSet (metav1.DeletionTimestamp (v1.PodMeta pod))); [reflexivity|].
  rewrite enqueuePod_volumes_eq.
  by destruct (existsb _ _).
Qed.

Lemma enqueuePods_eq objs ec :
  enqueuePods objs ec
    = (Returns tt,
       with_queue (foldl (fun q key => queue_Add key q) (queue ec) (omap enqueueKey objs)) ec).
Proof.
  revert ec. induction objs as [|obj objs IH]; intros ec; simpl.
  - unfold ret. by rewrite with_queue_same.
  - unfold bind. rewrite enqueuePod_eq.
    destruct (enqueueKey obj) as [key|]; simpl; rewrite IH; reflexivity.
Qed.




(** *** Running the sync handler twice *)

(** A claim built by [handleVolume] for the pod and stored in the pod's
    namespace passes the ownership check. *)
Lemma created_claim_is_for_pod pod name labels annotations spec :
  VolumeIsForPod pod
    (inNamespace (metav1.Namespace (v1.PodMeta pod))
       {| v1.PVCMeta :=
            {| metav1.Name := name; metav1.Namespace := ""; metav1.UID := "";
               metav1.DeletionTimestamp := None;
               metav1.OwnerReferences := [podOwnerReference pod];
               metav1.Annotations := annotations; metav1.Labels := labels |};
          v1.PVCSpec := spec |}) = None.
Proof.
  unfold VolumeIsForPod, IsControlledBy, GetControllerOf. simpl.
  by rewrite !bool_decide_eq_true_2.
Qed.

Section FirstRun.

(** During a pass the claim cache stays at [snapshot] while the store
    grows. *)
Variable snapshot : gmap (string * string) v1.PersistentVolumeClaim.

Lemma handleVolume_resolves pod vol ec ec' :
  behindStore snapshot ec ->
  handleVolume pod vol ec = (Returns None, ec') ->
  behindStore snapshot ec'
  /\ objects (kubeClient ec) ⊆ objects (kubeClient ec')
  /\ (isSet (v1.Ephemeral vol) = true ->
      exists pvc,
        objects (kubeClient ec') !!
          (metav1.Namespace (v1.PodMeta pod), VolumeClaimName pod vol) = Some pvc
        /\ VolumeIsForPod pod pvc = None).
Proof.
  intros [Hcache Hsub].
  unfold handleVolume, bind, klog_Infof, ret, this. simpl.
  destruct (v1.Ephemeral vol) as [source|].
  2:{ intros [= <-]. by repeat split. }
  rewrite Hcache. unfold storeLister.
  destruct (snapshot !! _) as [pvc|] eqn:Hlook; simpl.
  - destruct (VolumeIsForPod pod pvc) eqn:Hown; [discriminate|].
    intros [= <-]. repeat split; try done.
    intros _. exists pvc. split; [|done].
    by eapply lookup_weaken.
  - destruct (v1.VolumeClaimTemplate source) as [template|]; simpl; [|discriminate].
    unfold bind. simpl. rewrite client_Create_eq. simpl.
    match goal with
    | |- context [Create ?ns ?pvc ?c] =>
        pose proof (Create_succeeded ns pvc c) as Hok;
        pose proof (Create_objects_mono ns pvc c) as Hmono;
        destruct (fst (Create ns pvc c))
    end; simpl; [discriminate|].
    intros [= <-]. simpl.
    destruct (Hok eq_refl) as [Hobjs _].
    repeat split; try done.
    + by etrans.
    + intros _. rewrite Hobjs. simpl. rewrite lookup_insert_eq.
      eexists. split; [reflexivity|]. apply created_claim_is_for_pod.
Qed.

Lemma syncHandler_volumes_resolves key pod vols ec ec' :
  behindStore snapshot ec ->
  syncHandler_volumes key pod vols ec = (Returns None, ec') ->
  behindStore snapshot ec'
  /\ objects (kubeClient ec) ⊆ objects (kubeClient ec')
  /\ forall vol,
       vol ∈ vols ->
       isSet (v1.Ephemeral vol) = true ->
       exists pvc,
         objects (kubeClient ec') !!
           (metav1.Namespace (v1.PodMeta pod), VolumeClaimName pod vol) = Some pvc
         /\ VolumeIsForPod pod pvc = None.
Proof.
  revert ec. induction vols as [|vol vols IH]; intros ec Hbehind Hrun; simpl in Hrun.
  - unfold ret in Hrun. injection Hrun as <-.
    split; [exact Hbehind|]. split; [done|].
    intros vol Hin. by apply elem_of_nil in Hin.
  - unfold bind in Hrun.
    destruct (handleVolume pod vol ec) as [[[e|]| |] ec0] eqn:Hvol; simpl in Hrun;
      try discriminate.
    destruct (handleVolume_resolves _ _ _ _ Hbehind Hvol) as (Hbehind0 & Hsub0 & Hthis).
    destruct (IH _ Hbehind0 Hrun) as (Hbehind' & Hsub' & Hrest).
    split; [exact Hbehind'|]. split.
    + by etrans.
    + intros v Hin Heph. apply elem_of_cons in Hin as [->|Hin].
      * destruct (Hthis Heph) as (pvc & Hlook & Hown).
        exists pvc. split; [|done]. by eapply lookup_weaken.
      * by apply Hrest.
Qed.

End FirstRun.

(** With every claim in the cache and owned, the loop does nothing. *)
Lemma syncHandler_volumes_short_circuit key pod vols ec :
  (forall vol,
     vol ∈ vols ->
     isSet (v1.Ephemeral vol) = true ->
     exists pvc,
       pvcLister ec (metav1.Namespace (v1.PodMeta pod)) (VolumeClaimName pod vol)
         = (Some pvc, None)
       /\ VolumeIsForPod pod pvc = None) ->
  syncHandler_volumes key pod vols ec = (Returns None, ec).
Proof.
  induction vols as [|vol vols IH]; intros Hall; simpl; [reflexivity|].
  assert (Hvol : handleVolume pod vol ec = (Returns None, ec)).
  { destruct (v1.Ephemeral vol) as [source|] eqn:Hsrc;
      [|by apply handleVolume_not_ephemeral].
    destruct (Hall vol) as (pvc & Hget & Hown);
      [apply list_elem_of_here | by rewrite Hsrc |].
    unfold handleVolume, bind, klog_Infof, ret, this. simpl.
    by rewrite Hsrc, Hget, Hown. }
  unfold bind. rewrite Hvol. apply IH.
  intros v Hin. apply Hall. by apply list_elem_of_further.
Qed.

(** C2, as the code has it.  Let the claim cache serve the store's contents
    and let a first run of the sync handler on [key] succeed.  Once the cache
    has caught up with the store, a second run on the same key returns
    success and leaves the whole state as it was (no create call); and if
    the key resolves to a pod without a deletion marker, every ephemeral
    volume of the pod then has its claim in the cache, passing the ownership
    check. *)
Theorem second_run_is_a_no_op key ec :
  cacheReflectsStore ec ->
  fst (syncHandler key ec) = Returns None ->
  let ec1 := informerSync (snd (syncHandler key ec)) in
  syncHandler key ec1 = (Returns None, ec1)
  /\ forall namespace name pod,
       SplitMetaNamespaceKey key = (namespace, name, None) ->
       podLister ec namespace name = (Some pod, None) ->
       isSet (metav1.DeletionTimestamp (v1.PodMeta pod)) = false ->
       claimsResolved ec1 pod.
Proof.
  intros Hcache. unfold syncHandler.
  destruct (SplitMetaNamespaceKey key) as [[namespace name] [e|]]; [discriminate|].
  unfold bind, this, ret, klog_Infof, deref, panic.
  destruct (podLister ec namespace name) as [pod [e|]] eqn:Hpod.
  - (* the pod lookup failed *)
    destruct (IsNotFound e) eqn:Hnf; simpl.
    + intros _. split.
      * rewrite Hpod. simpl. by rewrite Hnf.
      * intros ? ? ? [= <- <-]. rewrite Hpod. discriminate.
    + destruct pod; discriminate.
  - destruct pod as [p|]; simpl; [|discriminate].
    destruct (isSet (metav1.DeletionTimestamp (v1.PodMeta p))) eqn:Hdel; simpl.
    + (* marked for deletion *)
      intros _. split.
      * rewrite Hpod. simpl. by rewrite Hdel.
      * intros ? ? ? [= <- <-]. rewrite Hpod. intros [= <-]. congruence.
    + (* the loop over the volumes *)
      destruct (syncHandler_volumes key p (v1.Volumes (v1.Spec p)) ec)
        as [outcome ec'] eqn:Hrun.
      simpl. intros ->.
      destruct (syncHandler_volumes_resolves (objects (kubeClient ec)) key p
                  (v1.Volumes (v1.Spec p)) ec ec')
        as (_ & _ & Hall); [by split | exact Hrun |].
      pose proof (syncHandler_volumes_onlyCreates key p (v1.Volumes (v1.Spec p)) ec)
        as (Hpods & _).
      rewrite Hrun in Hpods. simpl in Hpods.
      assert (Hres : claimsResolved (informerSync ec') p).
      { intros vol Hin Heph. destruct (Hall vol Hin Heph) as (pvc & Hlook & Hown).
        exists pvc. split; [|done]. simpl. unfold storeLister. by rewrite Hlook. }
      split.
      * rewrite Hpods, Hpod. simpl. rewrite Hdel.
        by apply syncHandler_volumes_short_circuit.
      * intros ? ? ? [= <- <-]. rewrite Hpod. by intros [= <-] _.
Qed.

Lemma second_run_is_a_no_op_witness :
  let ec := Sample.controller [Sample.p1] ∅ [] in
  let ec1 := informerSync (snd (syncHandler "ns/p1" ec)) in
  syncHandler "ns/p1" ec1 = (Returns None, ec1)
  /\ claimsResolved ec1 Sample.p1.
Proof.
  intros ec ec1.
  assert (Hcache : cacheReflectsStore ec) by (intros namespace name; reflexivity).
  assert (Hfirst : fst (syncHandler "ns/p1" ec) = Returns None) by (vm_compute; reflexivity).
  destruct (second_run_is_a_no_op "ns/p1" ec Hcache Hfirst) as [Hsecond Hres].
  split; [exact Hsecond|].
  apply (Hres "ns" "p1"); vm_compute; reflexivity.
Defined.

(** C2, as stated, fails where a claim of the derived name belongs to another
    pod: both runs meet the foreign claim, and the ownership check does not
    pass on the second run either. *)
Lemma second_run_conflict_persists :
  let ec := Sample.controller [Sample.p1]
              {[("ns", "p1-vol-a") := Sample.foreignClaim]} [] in
  cacheReflectsStore ec /\ ~ secondRunShortCircuits "ns/p1" ec.
Proof.
  intros ec. split; [intros namespace name; reflexivity|].
  intros [_ Hres].
  assert (Hin : Sample.volA ∈ v1.Volumes (v1.Spec Sample.p1))
    by apply list_elem_of_further, list_elem_of_here.
  destruct (Hres "ns" "p1" Sample.p1 eq_refl eq_refl Sample.volA Hin eq_refl)
    as (pvc & Hget & Hown).
  vm_compute in Hget. injection Hget as <-.
  vm_compute in Hown. discriminate.
Qed.

(** A pod marked for deletion whose volumes have no claim: the first run
    succeeds without creating anything, so the claims stay unresolved. *)
Example deleted_pod_stays_unresolved :
  let pod := Sample.deleting Sample.p1 in
  let ec := Sample.controller [pod] ∅ [] in
  syncHandler "ns/p1" ec = (Returns None, ec)
  /\ ~ claimsResolved (informerSync ec) pod.
Proof.
  intros pod ec. split; [vm_compute; reflexivity|].
  intros Hres.
  assert (Hin : Sample.volA ∈ v1.Volumes (v1.Spec pod))
    by apply list_elem_of_further, list_elem_of_here.
  destruct (Hres Sample.volA Hin eq_refl) as (pvc & Hget & _).
  vm_compute in Hget. discriminate.
Qed.

(** *** Scenarios *)

(** First pass over [ns/p1]: one claim per ephemeral volume, in order. *)
Example first_pass_creates_both_claims :
  let ec' := snd (syncHandler "ns/p1" (Sample.controller [Sample.p1] ∅ [])) in
  (fun a => match a with
            | CreateAction namespace pvc => (namespace, metav1.Name (v1.PVCMeta pvc))
            | _ => ("", "")
            end) <$> actions (kubeClient ec')
    = [("ns", "p1-vol-a"); ("ns", "p1-vol-b")]
  /\ EphemeralVolumeCreateAttempts ec' = 2
  /\ EphemeralVolumeCreateFailures ec' = 0.
Proof. repeat split; vm_compute; reflexivity. Qed.

(** A store that turns the create down: the pass ends at the first ephemeral
    volume with the wrapped error, one attempt and one failure counted, one
    warning event, nothing stored. *)
Example refused_create_is_reported :
  let ec := Sample.refusing (Sample.controller [Sample.p1] ∅ []) in
  fst (syncHandler "ns/p1" ec)
    = Returns (Some (Errorf "pod ns/p1, ephemeral volume vol-a: create PVC p1-vol-a: quota exceeded"))
  /\ message <$> recorder (snd (syncHandler "ns/p1" ec))
     = ["ephemeral volume vol-a: create PVC p1-vol-a: quota exceeded"]
  /\ EphemeralVolumeCreateAttempts (snd (syncHandler "ns/p1" ec)) = 1
  /\ EphemeralVolumeCreateFailures (snd (syncHandler "ns/p1" ec)) = 1
  /\ objects (kubeClient (snd (syncHandler "ns/p1" ec))) = ∅.
Proof. repeat split; vm_compute; reflexivity. Qed.

(** A stale claim cache: the claim is in the store already, the cache does
    not show it yet, and the create comes back as "already exists". *)
Example stale_cache_create_already_exists :
  let ec := with_pvcLister (storeLister ∅)
              (Sample.controller [Sample.p1]
                 {[("ns", "p1-vol-a") := Sample.foreignClaim]} []) in
  fst (handleVolume Sample.p1 Sample.volA ec)
    = Returns (Some (Errorf ("create PVC p1-vol-a: persistentvolumeclaims " +:+
                             quoted "p1-vol-a" +:+ " already exists")))
  /\ objects (kubeClient (snd (handleVolume Sample.p1 Sample.volA ec)))
     = objects (kubeClient ec).
Proof. split; vm_compute; reflexivity. Qed.

(** A template pointer left nil: building the claim reads through it. *)
Example nil_template_panics :
  let vol := {| v1.VolName := "scratch";
                v1.Ephemeral := Some {| v1.VolumeClaimTemplate := None |} |} in
  let ec := Sample.controller [] ∅ [] in
  handleVolume (Sample.podWith "p3" "uid-p3" [vol]) vol ec
    = (Panics "invalid memory address or nil pointer dereference", ec).
Proof. vm_compute. reflexivity. Qed.

(** The work queue keeps one instance of a key however often it is added. *)
Example queue_Add_twice :
  waiting (queue_Add "ns/p1" (queue_Add "ns/p1" (Sample.queueOf []))) = ["ns/p1"].
Proof. vm_compute. reflexivity. Qed.

(** ** Further properties of the controller *)

(** *** handleVolume, case by case *)

(** The result of [handleVolume] on every path, in one equation. *)
Lemma handleVolume_eq pod vol ec :
  handleVolume pod vol ec
  = match v1.Ephemeral vol with
    | None => (Returns None, ec)
    | Some source =>
        let '(pvc, err) :=
          pvcLister ec (metav1.Namespace (v1.PodMeta pod)) (VolumeClaimName pod vol) in
        if isSet err && negb (from_option IsNotFound false err) then (Returns err, ec)
        else
          match pvc with
          | Some pvc => (Returns (VolumeIsForPod pod pvc), ec)
          | None =>
              match v1.VolumeClaimTemplate source with
              | None => (Panics "invalid memory address or nil pointer dereference", ec)
              | Some template =>
                  let r := Create (metav1.Namespace (v1.PodMeta pod))
                                  (claimFor pod vol template) (kubeClient ec) in
                  (Returns ((fun e => Errorf ("create PVC " +:+ VolumeClaimName pod vol +:+
                                              ": " +:+ msg e)) <$> fst r),
                   with_metrics
                     (S (EphemeralVolumeCreateAttempts ec))
                     (if isSet (fst r) then S (EphemeralVolumeCreateFailures ec)
                      else EphemeralVolumeCreateFailures ec)
                     (with_kubeClient (snd r) ec))
              end
          end
    end.
Proof.
  unfold handleVolume, bind, klog_Infof, ret, this. simpl.
  destruct (v1.Ephemeral vol) as [source|]; [|reflexivity].
  destruct (pvcLister ec _ _) as [pvc err].
  destruct (isSet err && _); [reflexivity|].
  destruct pvc as [pvc|].
  { by destruct (VolumeIsForPod pod pvc). }
  destruct (v1.VolumeClaimTemplate source) as [template|]; simpl; [|reflexivity].
  unfold bind. simpl. rewrite client_Create_eq. simpl.
  fold (podOwnerReference pod). fold (claimFor pod vol template).
  by destruct (fst (Create _ _ _)).
Qed.

(** X1.  A claim cache error other than not-found is returned as it is and
    nothing is looked at or created, even when the lister handed an object
    back along with the error. *)
Theorem handleVolume_lookup_error ec pod vol pvc e :
  isSet (v1.Ephemeral vol) = true ->
  pvcLister ec (metav1.Namespace (v1.PodMeta pod)) (VolumeClaimName pod vol) = (pvc, Some e) ->
  IsNotFound e = false ->
  handleVolume pod vol ec = (Returns (Some e), ec).
Proof.
  intros Heph Hget Hnf. rewrite handleVolume_eq.
  destruct (v1.Ephemeral vol); [|discriminate].
  rewrite Hget. simpl. by rewrite Hnf.
Qed.

Lemma handleVolume_lookup_error_witness :
  let failing := fun _ _ : string =>
    (Some Sample.foreignClaim,
     Some {| reason := metav1.StatusReasonInternalError; msg := "cache is closed" |}) in
  let ec := with_pvcLister failing (Sample.controller [Sample.p1] ∅ []) in
  handleVolume Sample.p1 Sample.volA ec
    = (Returns (Some {| reason := metav1.StatusReasonInternalError;
                        msg := "cache is closed" |}), ec).
Proof.
  intros failing ec.
  apply (handleVolume_lookup_error ec Sample.p1 Sample.volA (Some Sample.foreignClaim));
    reflexivity.
Defined.

(** X2.  A stale cache: the lister says not-found while the store already
    holds a claim of that name.  The create comes back as "already exists",
    and [handleVolume] does not take that for success: it returns the wrapped
    error (a plain one: the status is gone), counts one attempt and one
    failure, and the claim in the store stays as it was. *)
Theorem handleVolume_stale_cache ec pod vol source template e held :
  v1.Ephemeral vol = Some source ->
  v1.VolumeClaimTemplate source = Some template ->
  pvcLister ec (metav1.Namespace (v1.PodMeta pod)) (VolumeClaimName pod vol) = (None, Some e) ->
  IsNotFound e = true ->
  objects (kubeClient ec) !! (metav1.Namespace (v1.PodMeta pod), VolumeClaimName pod vol)
    = Some held ->
  let ec' := snd (handleVolume pod vol ec) in
  fst (handleVolume pod vol ec)
    = Returns (Some (Errorf ("create PVC " +:+ VolumeClaimName pod vol +:+ ": " +:+
                             msg (NewAlreadyExists "persistentvolumeclaims"
                                                   (VolumeClaimName pod vol)))))
  /\ objects (kubeClient ec') = objects (kubeClient ec)
  /\ EphemeralVolumeCreateAttempts ec' = S (EphemeralVolumeCreateAttempts ec)
  /\ EphemeralVolumeCreateFailures ec' = S (EphemeralVolumeCreateFailures ec).
Proof.
  intros Hsrc Htpl Hget Hnf Hheld. rewrite handleVolume_eq, Hsrc, Hget. simpl.
  rewrite Hnf, Htpl. simpl.
  unfold Create. simpl. rewrite Hheld. simpl. by repeat split.
Qed.

Lemma handleVolume_stale_cache_witness :
  let ec := with_pvcLister (storeLister ∅)
              (Sample.controller [Sample.p1]
                 {[("ns", "p1-vol-a") := Sample.foreignClaim]} []) in
  objects (kubeClient (snd (handleVolume Sample.p1 Sample.volA ec)))
    = objects (kubeClient ec)
  /\ EphemeralVolumeCreateFailures (snd (handleVolume Sample.p1 Sample.volA ec)) = 1.
Proof.
  intros ec.
  assert (Hget : pvcLister ec "ns" "p1-vol-a"
                 = (None, Some (NewNotFound "persistentvolumeclaim" "p1-vol-a")))
    by (vm_compute; reflexivity).
  assert (Hheld : objects (kubeClient ec) !! ("ns", "p1-vol-a") = Some Sample.foreignClaim)
    by (vm_compute; reflexivity).
  destruct (handleVolume_stale_cache ec Sample.p1 Sample.volA
              {| v1.VolumeClaimTemplate := Some Sample.template |} Sample.template
              (NewNotFound "persistentvolumeclaim" "p1-vol-a") Sample.foreignClaim
              eq_refl eq_refl Hget eq_refl Hheld) as (_ & Hobjs & _ & Hfail).
  split; [exact Hobjs | exact Hfail].
Defined.

(** *** What a pass counts, calls and records *)

Lemma Create_actions_length namespace pvc c :
  length (actions (snd (Create namespace pvc c))) = S (length (actions c)).
Proof. rewrite Create_actions, length_app. simpl. lia. Qed.

Lemma handleVolume_metrics pod vol ec :
  let ec' := snd (handleVolume pod vol ec) in
  EphemeralVolumeCreateAttempts ec' + length (actions (kubeClient ec))
    = EphemeralVolumeCreateAttempts ec + length (actions (kubeClient ec'))
  /\ EphemeralVolumeCreateFailures ec <= EphemeralVolumeCreateFailures ec'
  /\ EphemeralVolumeCreateFailures ec' <= S (EphemeralVolumeCreateFailures ec)
  /\ (fst (handleVolume pod vol ec) = Returns None ->
      EphemeralVolumeCreateFailures ec' = EphemeralVolumeCreateFailures ec).
Proof.
  rewrite handleVolume_eq.
  destruct (v1.Ephemeral vol) as [source|]; simpl; [|repeat split; lia].
  destruct (pvcLister ec _ _) as [pvc err].
  destruct (isSet err && _); simpl; [repeat split; lia|].
  destruct pvc as [pvc|]; simpl; [repeat split; lia|].
  destruct (v1.VolumeClaimTemplate source) as [template|]; simpl; [|repeat split; lia].
  rewrite Create_actions_length.
  destruct (fst (Create _ _ _)); simpl; repeat split; try lia. discriminate.
Qed.

Lemma syncHandler_volumes_metrics key pod vols ec :
  let ec' := snd (syncHandler_volumes key pod vols ec) in
  EphemeralVolumeCreateAttempts ec' + length (actions (kubeClient ec))
    = EphemeralVolumeCreateAttempts ec + length (actions (kubeClient ec'))
  /\ EphemeralVolumeCreateFailures ec <= EphemeralVolumeCreateFailures ec'
  /\ EphemeralVolumeCreateFailures ec' <= S (EphemeralVolumeCreateFailures ec)
  /\ (fst (syncHandler_volumes key pod vols ec) = Returns None ->
      EphemeralVolumeCreateFailures ec' = EphemeralVolumeCreateFailures ec).
Proof.
  revert ec. induction vols as [|vol vols IH]; intros ec; simpl.
  - repeat split; lia.
  - unfold bind.
    pose proof (handleVolume_metrics pod vol ec) as Hvol.
    destruct (handleVolume pod vol ec) as [[[e|]| |] ec0]; simpl in *.
    + destruct Hvol as (Ha & Hlo & Hhi & _). repeat split; try lia. discriminate.
    + destruct Hvol as (Ha & _ & _ & Hsame). specialize (Hsame eq_refl).
      destruct (IH ec0) as (Ha' & Hlo' & Hhi' & Hsame').
      repeat split; try lia. intros Hok. specialize (Hsame' Hok). lia.
    + destruct Hvol as (Ha & Hlo & Hhi & _). repeat split; try lia. discriminate.
    + destruct Hvol as (Ha & Hlo & Hhi & _). repeat split; try lia. discriminate.
Qed.

(** X3.  The two counters follow the client calls: a run of the sync handler
    raises the attempts counter by exactly the number of calls it issued,
    raises the failures counter by at most one, and does not raise it at all
    when it returns nil. *)
Theorem syncHandler_counts_creates key ec :
  let ec' := snd (syncHandler key ec) in
  EphemeralVolumeCreateAttempts ec' + length (actions (kubeClient ec))
    = EphemeralVolumeCreateAttempts ec + length (actions (kubeClient ec'))
  /\ EphemeralVolumeCreateFailures ec <= EphemeralVolumeCreateFailures ec'
  /\ EphemeralVolumeCreateFailures ec' <= S (EphemeralVolumeCreateFailures ec)
  /\ (fst (syncHandler key ec) = Returns None ->
      EphemeralVolumeCreateFailures ec' = EphemeralVolumeCreateFailures ec).
Proof.
  unfold syncHandler.
  destruct (SplitMetaNamespaceKey key) as [[namespace name] [e|]]; simpl;
    [repeat split; lia|].
  unfold bind, this, deref, panic, ret, klog_Infof.
  destruct (podLister ec namespace name) as [pod [e|]].
  - destruct (IsNotFound e); simpl; [repeat split; lia|].
    destruct pod; simpl; repeat split; lia.
  - destruct pod as [p|]; simpl; [|repeat split; lia].
    destruct (isSet _); simpl; [repeat split; lia|].
    apply syncHandler_volumes_metrics.
Qed.

Lemma handleVolume_calls pod vol ec :
  actions (kubeClient (snd (handleVolume pod vol ec))) = actions (kubeClient ec)
  \/ exists a,
       actions (kubeClient (snd (handleVolume pod vol ec))) = actions (kubeClient ec) ++ [a]
       /\ createsFor pod a vol.
Proof.
  rewrite handleVolume_eq.
  destruct (v1.Ephemeral vol) as [source|] eqn:Hsrc; simpl; [|by left].
  destruct (pvcLister ec _ _) as [pvc err].
  destruct (isSet err && _); simpl; [by left|].
  destruct pvc as [pvc|]; simpl; [by left|].
  destruct (v1.VolumeClaimTemplate source) as [template|] eqn:Htpl; simpl; [|by left].
  right. eexists. split; [apply Create_actions|].
  by exists source, template.
Qed.

Lemma syncHandler_volumes_calls key pod vols ec :
  exists new handled,
    actions (kubeClient (snd (syncHandler_volumes key pod vols ec)))
      = actions (kubeClient ec) ++ new
    /\ sublist handled vols
    /\ Forall2 (createsFor pod) new handled.
Proof.
  revert ec. induction vols as [|vol vols IH]; intros ec; simpl.
  - exists [], []. rewrite app_nil_r. by repeat split.
  - unfold bind.
    pose proof (handleVolume_calls pod vol ec) as Hvol.
    assert (Hstop : forall ec0,
      (actions (kubeClient ec0) = actions (kubeClient ec)
       \/ exists a, actions (kubeClient ec0) = actions (kubeClient ec) ++ [a]
                    /\ createsFor pod a vol) ->
      exists new handled,
        actions (kubeClient ec0) = actions (kubeClient ec) ++ new
        /\ sublist handled (vol :: vols)
        /\ Forall2 (createsFor pod) new handled).
    { intros ec0 [Hsame|(a & Hone & Hfor)].
      - exists [], []. rewrite app_nil_r. repeat split; [done| |done].
        apply sublist_nil_l.
      - exists [a], [vol]. repeat split; [done| |by repeat constructor].
        apply sublist_skip, sublist_nil_l. }
    destruct (handleVolume pod vol ec) as [[[e|]| |] ec0]; simpl in *;
      try (by apply Hstop).
    destruct (IH ec0) as (new & handled & Hnew & Hsub & Hall).
    destruct Hvol as [Hsame|(a & Hone & Hfor)].
    + exists new, handled. rewrite Hnew, Hsame. repeat split; [|done].
      by apply sublist_cons.
    + exists (a :: new), (vol :: handled). rewrite Hnew, Hone, <- app_assoc.
      repeat split; [by apply sublist_skip | by constructor].
Qed.

(** X4.  The client calls of a pass are creates for ephemeral volumes of the
    pod, in the order of the pod's volume list and at most one per volume:
    each is issued in the pod's namespace for the claim built from that
    volume's template, named after the volume and owned by the pod. *)
Theorem syncHandler_creates_for_volumes key ec namespace name pod :
  SplitMetaNamespaceKey key = (namespace, name, None) ->
  podLister ec namespace name = (Some pod, None) ->
  exists new handled,
    actions (kubeClient (snd (syncHandler key ec))) = actions (kubeClient ec) ++ new
    /\ sublist handled (v1.Volumes (v1.Spec pod))
    /\ Forall2 (createsFor pod) new handled.
Proof.
  intros Hkey Hpod. unfold syncHandler. rewrite Hkey.
  unfold bind, this, deref, ret, klog_Infof. rewrite Hpod. simpl.
  destruct (isSet _); simpl; [|apply syncHandler_volumes_calls].
  exists [], []. rewrite app_nil_r. repeat split; [apply sublist_nil_l | constructor].
Qed.

Lemma syncHandler_creates_for_volumes_witness :
  exists new handled,
    actions (kubeClient (snd (syncHandler "ns/p1" (Sample.controller [Sample.p1] ∅ []))))
      = new
    /\ sublist handled [Sample.volPlain; Sample.volA; Sample.volB]
    /\ Forall2 (createsFor Sample.p1) new handled.
Proof.
  destruct (syncHandler_creates_for_volumes "ns/p1" (Sample.controller [Sample.p1] ∅ [])
              "ns" "p1" Sample.p1 eq_refl eq_refl) as (new & handled & Hnew & Hsub & Hall).
  exists new, handled. repeat split; assumption.
Defined.

Lemma syncHandler_volumes_events key pod vols ec :
  match fst (syncHandler_volumes key pod vols ec) with
  | Returns (Some err) =>
      exists vol e,
        vol ∈ vols
        /\ err = Errorf ("pod " +:+ key +:+ ", ephemeral volume " +:+ v1.VolName vol +:+
                         ": " +:+ msg e)
        /\ recorder (snd (syncHandler_volumes key pod vols ec))
           = recorder ec ++
               [{| involved := pod; eventtype := v1.EventTypeWarning;
                   eventreason := FailedBinding;
                   message := "ephemeral volume " +:+ v1.VolName vol +:+ ": " +:+ msg e |}]
  | _ => recorder (snd (syncHandler_volumes key pod vols ec)) = recorder ec
  end.
Proof.
  revert ec. induction vols as [|vol vols IH]; intros ec; simpl; [reflexivity|].
  unfold bind.
  pose proof (handleVolume_recorder pod vol ec) as Hrec.
  destruct (handleVolume pod vol ec) as [[[e|]| |] ec0]; simpl in *; try exact Hrec.
  - exists vol, e. rewrite Hrec. repeat split. apply list_elem_of_here.
  - specialize (IH ec0).
    destruct (fst (syncHandler_volumes key pod vols ec0)) as [[err|]| |];
      rewrite <- Hrec; try exact IH.
    destruct IH as (v & e & Hin & Herr & Hev).
    exists v, e. repeat split; [by apply list_elem_of_further | done | done].
Qed.

(** X5.  For a pod that is not being deleted, the sync handler records an
    event exactly when it returns an error: then one warning event, reason
    FailedBinding, about the pod, naming the failed volume and the cause the
    returned error names too; when it returns nil or panics, none. *)
Theorem syncHandler_event_iff_error key ec namespace name pod :
  SplitMetaNamespaceKey key = (namespace, name, None) ->
  podLister ec namespace name = (Some pod, None) ->
  isSet (metav1.DeletionTimestamp (v1.PodMeta pod)) = false ->
  match fst (syncHandler key ec) with
  | Returns (Some err) =>
      exists vol e,
        vol ∈ v1.Volumes (v1.Spec pod)
        /\ err = Errorf ("pod " +:+ key +:+ ", ephemeral volume " +:+ v1.VolName vol +:+
                         ": " +:+ msg e)
        /\ recorder (snd (syncHandler key ec))
           = recorder ec ++
               [{| involved := pod; eventtype := v1.EventTypeWarning;
                   eventreason := FailedBinding;
                   message := "ephemeral volume " +:+ v1.VolName vol +:+ ": " +:+ msg e |}]
  | _ => recorder (snd (syncHandler key ec)) = recorder ec
  end.
Proof.
  intros Hkey Hpod Hlive. unfold syncHandler. rewrite Hkey.
  unfold bind, this, deref, ret. rewrite Hpod. simpl. rewrite Hlive.
  apply syncHandler_volumes_events.
Qed.

Lemma syncHandler_event_iff_error_witness :
  let ec := Sample.refusing (Sample.controller [Sample.p1] ∅ []) in
  exists vol e,
    vol ∈ [Sample.volPlain; Sample.volA; Sample.volB]
    /\ message <$> recorder (snd (syncHandler "ns/p1" ec))
       = ["ephemeral volume " +:+ v1.VolName vol +:+ ": " +:+ msg e].
Proof.
  intros ec.
  pose proof (syncHandler_event_iff_error "ns/p1" ec "ns" "p1" Sample.p1
                eq_refl eq_refl eq_refl) as Hev.
  assert (Hres : fst (syncHandler "ns/p1" ec)
                 = Returns (Some (Errorf "pod ns/p1, ephemeral volume vol-a: create PVC p1-vol-a: quota exceeded")))
    by (vm_compute; reflexivity).
  rewrite Hres in Hev. destruct Hev as (vol & e & Hin & _ & Hrec).
  exists vol, e. split; [exact Hin|]. rewrite Hrec. reflexivity.
Defined.

(** *** When the sync handler returns *)

Lemma handleVolume_not_blocked pod vol ec :
  fst (handleVolume pod vol ec) <> Blocks.
Proof. rewrite handleVolume_eq. by repeat case_match. Qed.

Lemma syncHandler_volumes_not_blocked key pod vols ec :
  fst (syncHandler_volumes key pod vols ec) <> Blocks.
Proof.
  revert ec. induction vols as [|vol vols IH]; intros ec; simpl; [done|].
  unfold bind.
  pose proof (handleVolume_not_blocked pod vol ec) as Hvol.
  destruct (handleVolume pod vol ec) as [[[e|]| |] ec0]; simpl in *;
    first [done | apply IH].
Qed.

Lemma syncHandler_not_blocked key ec :
  fst (syncHandler key ec) <> Blocks.
Proof.
  unfold syncHandler.
  destruct (SplitMetaNamespaceKey key) as [[namespace name] [e|]]; [done|].
  unfold bind, this, deref, panic, ret, klog_Infof.
  destruct (podLister ec namespace name) as [pod [e|]].
  - destruct (IsNotFound e); [done|]. by destruct pod.
  - destruct pod as [p|]; simpl; [|done].
    destruct (isSet _); simpl; [done|].
    apply syncHandler_volumes_not_blocked.
Qed.

Lemma handleVolume_returns pod vol ec :
  match v1.Ephemeral vol with
  | Some source => isSet (v1.VolumeClaimTemplate source)
  | None => true
  end = true ->
  exists r, fst (handleVolume pod vol ec) = Returns r.
Proof.
  intros Htpl. rewrite handleVolume_eq.
  destruct (v1.Ephemeral vol) as [source|]; [|by eexists].
  destruct (pvcLister ec _ _) as [pvc err].
  destruct (isSet err && _); [by eexists|].
  destruct pvc; [by eexists|].
  destruct (v1.VolumeClaimTemplate source); [by eexists | discriminate].
Qed.

Lemma syncHandler_volumes_returns key pod vols ec :
  forallb (fun vol => match v1.Ephemeral vol with
                      | Some source => isSet (v1.VolumeClaimTemplate source)
                      | None => true
                      end) vols = true ->
  exists r, fst (syncHandler_volumes key pod vols ec) = Returns r.
Proof.
  revert ec. induction vols as [|vol vols IH]; intros ec Hall; simpl in *;
    [by eexists|].
  apply andb_prop in Hall as [Hvol Hrest].
  unfold bind.
  destruct (handleVolume_returns pod vol ec Hvol) as [r Hr].
  destruct (handleVolume pod vol ec) as [o ec0]. simpl in Hr. subst o.
  destruct r as [e|]; simpl; [by eexists|]. by apply IH.
Qed.

(** X6.  The sync handler panics only on a nil pointer it was handed: when
    the pod lister hands back a pod (with or without an error) and every
    ephemeral volume of that pod carries a claim template, the handler
    returns, with nil or with an error. *)
Theorem syncHandler_returns key ec namespace name pod :
  fst (SplitMetaNamespaceKey key) = (namespace, name) ->
  fst (podLister ec namespace name) = Some pod ->
  templatesPresent pod = true ->
  exists r, fst (syncHandler key ec) = Returns r.
Proof.
  intros Hkey Hpod Htpl. unfold syncHandler.
  destruct (SplitMetaNamespaceKey key) as [[ns n] [e|]]; [by eexists|].
  simpl in Hkey. injection Hkey as -> ->.
  unfold bind, this, deref, ret, klog_Infof.
  destruct (podLister ec namespace name) as [p [e|]]; simpl in Hpod; subst p; simpl.
  - destruct (IsNotFound e); by eexists.
  - destruct (isSet _); simpl; [by eexists|].
    by apply syncHandler_volumes_returns.
Qed.

Lemma syncHandler_returns_witness :
  exists r,
    fst (syncHandler "ns/p1"
           (Sample.refusing (Sample.controller [Sample.p1] ∅ []))) = Returns r.
Proof.
  apply (syncHandler_returns "ns/p1" _ "ns" "p1" Sample.p1); reflexivity.
Defined.

(** *** What the sync handler leaves to the worker *)

Lemma handleVolume_queue pod vol ec :
  queue (snd (handleVolume pod vol ec)) = queue ec
  /\ handledErrors (snd (handleVolume pod vol ec)) = handledErrors ec.
Proof. rewrite handleVolume_eq. by repeat case_match. Qed.

Lemma syncHandler_volumes_queue key pod vols ec :
  queue (snd (syncHandler_volumes key pod vols ec)) = queue ec
  /\ handledErrors (snd (syncHandler_volumes key pod vols ec)) = handledErrors ec.
Proof.
  revert ec. induction vols as [|vol vols IH]; intros ec; simpl; [done|].
  unfold bind.
  pose proof (handleVolume_queue pod vol ec) as Hvol.
  destruct (handleVolume pod vol ec) as [[[e|]| |] ec0]; simpl in *; try done.
  destruct (IH ec0) as [Hq He]. destruct Hvol as [Hq0 He0]. split; congruence.
Qed.

(** The queue and the error log belong to the worker step: the sync handler
    touches neither. *)
Lemma syncHandler_queue key ec :
  queue (snd (syncHandler key ec)) = queue ec
  /\ handledErrors (snd (syncHandler key ec)) = handledErrors ec.
Proof.
  unfold syncHandler.
  destruct (SplitMetaNamespaceKey key) as [[namespace name] [e|]]; [done|].
  unfold bind, this, deref, panic, ret, klog_Infof.
  destruct (podLister ec namespace name) as [pod [e|]].
  - destruct (IsNotFound e); [done|]. by destruct pod.
  - destruct pod as [p|]; simpl; [|done].
    destruct (isSet _); simpl; [done|].
    apply syncHandler_volumes_queue.
Qed.

Lemma handleVolume_with_queue pod vol q ec :
  handleVolume pod vol (with_queue q ec)
    = (fst (handleVolume pod vol ec), with_queue q (snd (handleVolume pod vol ec))).
Proof. rewrite !handleVolume_eq. simpl. by repeat case_match. Qed.

Lemma syncHandler_volumes_with_queue key pod vols q ec :
  syncHandler_volumes key pod vols (with_queue q ec)
    = (fst (syncHandler_volumes key pod vols ec),
       with_queue q (snd (syncHandler_volumes key pod vols ec))).
Proof.
  revert ec. induction vols as [|vol vols IH]; intros ec; simpl; [reflexivity|].
  unfold bind. rewrite handleVolume_with_queue.
  destruct (handleVolume pod vol ec) as [[[e|]| |] ec0]; simpl; try reflexivity.
  apply IH.
Qed.

(** The sync handler does not read the queue either: with another queue it
    does the same. *)
Lemma syncHandler_with_queue key q ec :
  syncHandler key (with_queue q ec)
    = (fst (syncHandler key ec), with_queue q (snd (syncHandler key ec))).
Proof.
  unfold syncHandler.
  destruct (SplitMetaNamespaceKey key) as [[namespace name] [e|]]; [reflexivity|].
  unfold bind, this, deref, panic, ret, klog_Infof. simpl.
  destruct (podLister ec namespace name) as [pod [e|]].
  - destruct (IsNotFound e); [reflexivity|]. by destruct pod.
  - destruct pod as [p|]; simpl; [|reflexivity].
    destruct (isSet _); simpl; [reflexivity|].
    apply syncHandler_volumes_with_queue.
Qed.

(** *** The worker step *)

Lemma queue_Get_key q0 key q :
  queue_Get q0 = Some (key, false, q) ->
  waiting q0 = key :: waiting q
  /\ dirty q = dirty q0 ∖ {[key]}
  /\ processing q = {[key]} ∪ processing q0
  /\ delayed q = delayed q0
  /\ failures q = failures q0
  /\ shuttingDown q = shuttingDown q0.
Proof.
  unfold queue_Get. destruct (waiting q0) as [|k rest].
  - destruct (shuttingDown q0); discriminate.
  - intros [= -> <-]. by repeat split.
Qed.

(** The worker step on a key: the sync handler on that key, then the queue
    calls its outcome asks for, then the deferred [Done]. *)
Lemma processNextWorkItem_eq ec key q :
  queue_Get (queue ec) = Some (key, false, q) ->
  processNextWorkItem ec
  = let ec1 := snd (syncHandler key ec) in
    match fst (syncHandler key ec) with
    | Returns None =>
        (Returns true, with_queue (queue_Done key (queue_Forget key q)) ec1)
    | Returns (Some e) =>
        (Returns true,
         with_queue (queue_Done key (queue_AddRateLimited key q))
           (with_handledErrors
              (handledErrors ec ++ [Errorf (key +:+ " failed with: " +:+ msg e)]) ec1))
    | Panics what => (Panics what, with_queue (queue_Done key q) ec1)
    | Blocks => (Blocks, with_queue (queue_Done key q) ec1)
    end.
Proof.
  intros Hget. unfold processNextWorkItem, bind at 1, this. rewrite Hget. simpl.
  unfold bind at 1. simpl. unfold defer, bind.
  change (with_queue ((fun _ => q) (queue ec)) ec) with (with_queue q ec).
  rewrite syncHandler_with_queue.
  destruct (syncHandler_queue key ec) as [_ Herr].
  destruct (syncHandler key ec) as [[[e|]| |] ec1]; simpl in *; try reflexivity.
  by rewrite Herr.
Qed.

(** X7.  The deferred [Done] runs on every way out of the worker step: when
    the sync handler returns nil, returns an error or panics, the key is no
    longer marked as being processed afterwards, and the other keys in
    flight are as before. *)
Theorem processNextWorkItem_releases_key ec key q :
  queue_Get (queue ec) = Some (key, false, q) ->
  processing (queue (snd (processNextWorkItem ec))) = processing (queue ec) ∖ {[key]}.
Proof.
  intros Hget. rewrite (processNextWorkItem_eq _ _ _ Hget).
  destruct (queue_Get_key _ _ _ Hget) as (_ & _ & Hproc & _).
  destruct (fst (syncHandler key ec)) as [[e|]| |]; simpl; rewrite Hproc;
    clear; apply set_eq; intros k;
    rewrite !elem_of_difference, elem_of_union; tauto.
Qed.

Lemma processNextWorkItem_releases_key_witness :
  processing (queue (snd (processNextWorkItem (Sample.brokenController ["ns/p1"])))) = ∅.
Proof.
  rewrite (processNextWorkItem_releases_key (Sample.brokenController ["ns/p1"]) "ns/p1"
             {| waiting := []; dirty := list_to_set ["ns/p1"] ∖ {["ns/p1"]};
                processing := {["ns/p1"]} ∪ ∅; delayed := [];
                failures := ∅; shuttingDown := false |} eq_refl).
  vm_compute. reflexivity.
Defined.

(** X8.  The worker step retries exactly the keys whose sync failed.  When
    the sync handler returns nil the key's requeue count is cleared and
    nothing is scheduled; when it returns an error the error is logged, the
    count goes up by one and the key is scheduled after its backoff delay
    (unless the queue is shutting down); when it panics neither happens.  In
    the first two cases the step reports that the worker goes on. *)
Theorem processNextWorkItem_retries_on_error ec key q :
  queue_Get (queue ec) = Some (key, false, q) ->
  let ec' := snd (processNextWorkItem ec) in
  match fst (syncHandler key ec) with
  | Returns None =>
      fst (processNextWorkItem ec) = Returns true
      /\ failures (queue ec') !! key = None
      /\ delayed (queue ec') = delayed (queue ec)
      /\ handledErrors ec' = handledErrors ec
  | Returns (Some e) =>
      fst (processNextWorkItem ec) = Returns true
      /\ failures (queue ec') !! key = Some (S (default 0 (failures (queue ec) !! key)))
      /\ delayed (queue ec')
         = (if shuttingDown (queue ec) then delayed (queue ec)
            else delayed (queue ec) ++ [key])
      /\ handledErrors ec'
         = handledErrors ec ++ [Errorf (key +:+ " failed with: " +:+ msg e)]
  | Panics what =>
      fst (processNextWorkItem ec) = Panics what
      /\ failures (queue ec') = failures (queue ec)
      /\ delayed (queue ec') = delayed (queue ec)
      /\ handledErrors ec' = handledErrors ec
  | Blocks => True
  end.
Proof.
  intros Hget. simpl. rewrite (processNextWorkItem_eq _ _ _ Hget).
  destruct (queue_Get_key _ _ _ Hget) as (_ & _ & _ & Hdel & Hfail & Hshut).
  destruct (syncHandler_queue key ec) as [_ Herr].
  destruct (fst (syncHandler key ec)) as [[e|]| |]; simpl.
  - rewrite lookup_insert_eq, Hfail, Hshut, Hdel. by repeat split.
  - rewrite lookup_delete_eq, Hdel. by repeat split.
  - by rewrite Hfail, Hdel.
  - exact I.
Qed.

Lemma processNextWorkItem_retries_on_error_witness :
  let ec := Sample.controller [Sample.p1]
              {[("ns", "p1-vol-a") := Sample.foreignClaim]} ["ns/p1"] in
  failures (queue (snd (processNextWorkItem ec))) !! "ns/p1" = Some 1
  /\ delayed (queue (snd (processNextWorkItem ec))) = ["ns/p1"].
Proof.
  intros ec.
  pose proof (processNextWorkItem_retries_on_error ec "ns/p1"
                {| waiting := []; dirty := list_to_set ["ns/p1"] ∖ {["ns/p1"]};
                   processing := {["ns/p1"]} ∪ ∅; delayed := [];
                   failures := ∅; shuttingDown := false |} eq_refl) as Hstep.
  assert (Hres : fst (syncHandler "ns/p1" ec)
                 = Returns (Some (Errorf "pod ns/p1, ephemeral volume vol-a: PVC ns/p1-vol-a was not created for pod ns/p1 (pod is not owner)")))
    by (vm_compute; reflexivity).
  simpl in Hstep. rewrite Hres in Hstep.
  destruct Hstep as (_ & Hcount & Hdelayed & _).
  split; [exact Hcount | exact Hdelayed].
Defined.

(** *** The worker loop *)

Lemma processNextWorkItem_shutdown ec :
  waiting (queue ec) = [] ->
  shuttingDown (queue ec) = true ->
  processNextWorkItem ec = (Returns false, ec).
Proof.
  intros Hempty Hshut. unfold processNextWorkItem, bind at 1, this, queue_Get.
  rewrite Hempty, Hshut. simpl. unfold bind, on_queue, modify, ret. simpl.
  by rewrite with_queue_same.
Qed.

Lemma processNextWorkItem_blocks ec :
  waiting (queue ec) = [] ->
  shuttingDown (queue ec) = false ->
  processNextWorkItem ec = (Blocks, ec).
Proof.
  intros Hempty Hshut. unfold processNextWorkItem, bind at 1, this, queue_Get.
  by rewrite Hempty, Hshut.
Qed.

Lemma queue_Get_cons q key rest :
  waiting q = key :: rest ->
  exists q1, queue_Get q = Some (key, false, q1) /\ waiting q1 = rest.
Proof. intros Hw. unfold queue_Get. rewrite Hw. by eexists. Qed.

(** After a worker step that returned, the key it took is off the waiting
    list and the shutdown flag is as before. *)
Lemma processNextWorkItem_waiting ec key q more :
  queue_Get (queue ec) = Some (key, false, q) ->
  fst (processNextWorkItem ec) = Returns more ->
  more = true
  /\ waiting (queue (snd (processNextWorkItem ec))) = waiting q
  /\ shuttingDown (queue (snd (processNextWorkItem ec))) = shuttingDown (queue ec).
Proof.
  intros Hget. rewrite (processNextWorkItem_eq _ _ _ Hget).
  destruct (queue_Get_key _ _ _ Hget) as (_ & Hdirty & _ & _ & _ & Hshut).
  assert (Hout : bool_decide (key ∈ dirty q) = false).
  { apply bool_decide_eq_false_2. rewrite Hdirty, elem_of_difference, elem_of_singleton.
    tauto. }
  destruct (fst (syncHandler key ec)) as [[e|]| |]; simpl; try discriminate;
    intros [= <-]; rewrite Hout; by repeat split.
Qed.

(** X9.  Shutdown drains the queue.  With the queue shutting down and enough
    iterations for the keys that wait, the worker loop does not block: it
    either panics inside some sync, or it ends, and then it has taken every
    waiting key and the waiting list is empty. *)
Theorem runWorker_drains_on_shutdown fuel ec :
  shuttingDown (queue ec) = true ->
  length (waiting (queue ec)) < fuel ->
  match fst (runWorker fuel ec) with
  | Returns ended => ended = true /\ waiting (queue (snd (runWorker fuel ec))) = []
  | Panics _ => True
  | Blocks => False
  end.
Proof.
  revert ec. induction fuel as [|fuel IH]; intros ec Hshut Hlen; [lia|].
  simpl. unfold bind.
  destruct (waiting (queue ec)) as [|key rest] eqn:Hw.
  - rewrite (processNextWorkItem_shutdown _ Hw Hshut). simpl. by split.
  - destruct (queue_Get_cons _ _ _ Hw) as (q1 & Hget & Hrest).
    pose proof (processNextWorkItem_waiting ec key q1) as Hstep.
    pose proof (processNextWorkItem_eq _ _ _ Hget) as Heq.
    pose proof (syncHandler_not_blocked key ec) as Hnb.
    destruct (processNextWorkItem ec) as [[more| |] ec1] eqn:Hrun; simpl in *.
    + destruct (Hstep more Hget eq_refl) as (-> & Hwait & Hflag).
      apply IH; [congruence|]. rewrite Hwait, Hrest. lia.
    + exact I.
    + destruct (fst (syncHandler key ec)) as [[e|]| |]; try discriminate. done.
Qed.

Lemma runWorker_drains_on_shutdown_witness :
  let closing := {| waiting := ["ns/p1"; "a/b/c"]; dirty := {["ns/p1"; "a/b/c"]};
                    processing := ∅; delayed := []; failures := ∅;
                    shuttingDown := true |} in
  let ec := with_queue closing (Sample.controller [Sample.p1] ∅ []) in
  fst (runWorker 3 ec) = Returns true
  /\ waiting (queue (snd (runWorker 3 ec))) = [].
Proof.
  intros closing ec.
  assert (Hlen : length (waiting (queue ec)) < 3) by (simpl; lia).
  pose proof (runWorker_drains_on_shutdown 3 ec eq_refl Hlen) as Hdrain.
  assert (Hres : fst (runWorker 3 ec) = Returns true) by (vm_compute; reflexivity).
  rewrite Hres in Hdrain. destruct Hdrain as [_ Hempty].
  split; [exact Hres | exact Hempty].
Defined.

(** X10.  The worker loop ends only on shutdown: as long as the queue has
    not been shut down, however many keys the loop takes it never comes to
    its end; it goes on, waits for a key, or panics. *)
Theorem runWorker_ends_only_on_shutdown fuel ec :
  shuttingDown (queue ec) = false ->
  fst (runWorker fuel ec) <> Returns true.
Proof.
  revert ec. induction fuel as [|fuel IH]; intros ec Hshut; [done|].
  simpl. unfold bind.
  destruct (waiting (queue ec)) as [|key rest] eqn:Hw.
  - by rewrite (processNextWorkItem_blocks _ Hw Hshut).
  - destruct (queue_Get_cons _ _ _ Hw) as (q1 & Hget & Hrest).
    pose proof (processNextWorkItem_waiting ec key q1) as Hstep.
    destruct (processNextWorkItem ec) as [[more| |] ec1] eqn:Hrun; simpl in *;
      try done.
    destruct (Hstep more Hget eq_refl) as (-> & _ & Hflag).
    apply IH. congruence.
Qed.

Lemma runWorker_ends_only_on_shutdown_witness :
  fst (runWorker 4 (Sample.controller [Sample.p1] ∅ ["ns/p1"; "a/b/c"])) <> Returns true.
Proof.
  apply (runWorker_ends_only_on_shutdown 4
           (Sample.controller [Sample.p1] ∅ ["ns/p1"; "a/b/c"])).
  reflexivity.
Defined.

(** *** What a successful pass leaves in the store *)

Lemma handleVolume_stores snapshot pod vol source ec ec' :
  behindStore snapshot ec ->
  handleVolume pod vol ec = (Returns None, ec') ->
  v1.Ephemeral vol = Some source ->
  match snapshot !! (metav1.Namespace (v1.PodMeta pod), VolumeClaimName pod vol) with
  | Some held => VolumeIsForPod pod held = None
  | None =>
      exists template,
        v1.VolumeClaimTemplate source = Some template
        /\ objects (kubeClient ec') !!
             (metav1.Namespace (v1.PodMeta pod), VolumeClaimName pod vol)
           = Some (inNamespace (metav1.Namespace (v1.PodMeta pod))
                               (claimFor pod vol template))
  end.
Proof.
  intros [Hcache _] Hrun Hsrc. revert Hrun.
  rewrite handleVolume_eq, Hsrc, Hcache. unfold storeLister.
  destruct (snapshot !! _) as [held|]; simpl.
  - by intros [= ->].
  - destruct (v1.VolumeClaimTemplate source) as [template|]; [|discriminate].
    pose proof (Create_succeeded (metav1.Namespace (v1.PodMeta pod))
                  (claimFor pod vol template) (kubeClient ec)) as Hok.
    destruct (fst (Create _ _ _)); simpl; [discriminate|].
    intros [= <-]. exists template. split; [done|]. simpl.
    destruct (Hok eq_refl) as [-> _]. apply lookup_insert_eq.
Qed.

Lemma syncHandler_volumes_stores snapshot key pod vols ec ec' :
  behindStore snapshot ec ->
  syncHandler_volumes key pod vols ec = (Returns None, ec') ->
  forall vol source,
    vol ∈ vols ->
    v1.Ephemeral vol = Some source ->
    match snapshot !! (metav1.Namespace (v1.PodMeta pod), VolumeClaimName pod vol) with
    | Some held => VolumeIsForPod pod held = None
    | None =>
        exists template,
          v1.VolumeClaimTemplate source = Some template
          /\ objects (kubeClient ec') !!
               (metav1.Namespace (v1.PodMeta pod), VolumeClaimName pod vol)
             = Some (inNamespace (metav1.Namespace (v1.PodMeta pod))
                                 (claimFor pod vol template))
    end.
Proof.
  revert ec. induction vols as [|v vols IH]; intros ec Hbehind Hrun vol source Hin Hsrc.
  { by apply elem_of_nil in Hin. }
  simpl in Hrun. unfold bind in Hrun.
  destruct (handleVolume pod v ec) as [[[e|]| |] ec0] eqn:Hvol; simpl in Hrun;
    try discriminate.
  destruct (handleVolume_resolves snapshot _ _ _ _ Hbehind Hvol) as (Hbehind0 & _ & _).
  apply elem_of_cons in Hin as [->|Hin]; [|by eapply IH].
  pose proof (handleVolume_stores _ _ _ _ _ _ Hbehind Hvol Hsrc) as Hhere.
  destruct (snapshot !! _) as [held|]; [exact Hhere|].
  destruct Hhere as (template & Htpl & Hlook).
  exists template. split; [done|].
  destruct (syncHandler_volumes_resolves snapshot _ _ _ _ _ Hbehind0 Hrun)
    as (_ & Hmono & _).
  by eapply lookup_weaken.
Qed.

(** X11.  What a successful pass leaves in the store, volume by volume.  Let
    the claim cache serve the store's contents and let the sync handler
    return nil for a pod that is not being deleted.  Then for every
    ephemeral volume of the pod: a claim the store already held under the
    derived name is still there, unchanged, and it passes the ownership
    check; and where the store held none, it now holds the claim built from
    the volume's template, in the pod's namespace. *)
Theorem syncHandler_success_store key ec namespace name pod :
  cacheReflectsStore ec ->
  SplitMetaNamespaceKey key = (namespace, name, None) ->
  podLister ec namespace name = (Some pod, None) ->
  isSet (metav1.DeletionTimestamp (v1.PodMeta pod)) = false ->
  fst (syncHandler key ec) = Returns None ->
  forall vol source,
    vol ∈ v1.Volumes (v1.Spec pod) ->
    v1.Ephemeral vol = Some source ->
    let slot := (metav1.Namespace (v1.PodMeta pod), VolumeClaimName pod vol) in
    let after := objects (kubeClient (snd (syncHandler key ec))) in
    match objects (kubeClient ec) !! slot with
    | Some held => after !! slot = Some held /\ VolumeIsForPod pod held = None
    | None =>
        exists template,
          v1.VolumeClaimTemplate source = Some template
          /\ after !! slot
             = Some (inNamespace (metav1.Namespace (v1.PodMeta pod))
                                 (claimFor pod vol template))
    end.
Proof.
  intros Hcache Hkey Hpod Hlive. unfold syncHandler. rewrite Hkey.
  unfold bind, this, deref, ret. rewrite Hpod. simpl. rewrite Hlive.
  destruct (syncHandler_volumes key pod (v1.Volumes (v1.Spec pod)) ec)
    as [o ec'] eqn:Hrun.
  simpl. intros -> vol source Hin Hsrc.
  assert (Hbehind : behindStore (objects (kubeClient ec)) ec) by (by split).
  pose proof (syncHandler_volumes_stores _ _ _ _ _ _ Hbehind Hrun vol source Hin Hsrc)
    as Hvol.
  destruct (syncHandler_volumes_resolves _ _ _ _ _ _ Hbehind Hrun) as (_ & Hmono & _).
  destruct (objects (kubeClient ec) !! _) as [held|] eqn:Hheld; [|exact Hvol].
  split; [by eapply lookup_weaken | exact Hvol].
Qed.

Lemma syncHandler_success_store_witness :
  let ec := Sample.controller [Sample.p1] ∅ [] in
  exists template,
    Some template = Some Sample.template
    /\ objects (kubeClient (snd (syncHandler "ns/p1" ec))) !! ("ns", "p1-vol-b")
       = Some (inNamespace "ns" (claimFor Sample.p1 Sample.volB template)).
Proof.
  intros ec.
  assert (Hcache : cacheReflectsStore ec) by (intros namespace name; reflexivity).
  assert (Hok : fst (syncHandler "ns/p1" ec) = Returns None) by (vm_compute; reflexivity).
  assert (Hin : Sample.volB ∈ v1.Volumes (v1.Spec Sample.p1))
    by apply list_elem_of_further, list_elem_of_further, list_elem_of_here.
  pose proof (syncHandler_success_store "ns/p1" ec "ns" "p1" Sample.p1
                Hcache eq_refl eq_refl eq_refl Hok Sample.volB
                {| v1.VolumeClaimTemplate := Some Sample.template |} Hin eq_refl)
    as Hstore.
  destruct Hstore as (template & Htpl & Hlook).
  exists template. split; [symmetry; exact Htpl | exact Hlook].
Defined.

(** *** The event handlers and the queue *)

Lemma queue_Add_keeps key q :
  processing (queue_Add key q) = processing q
  /\ delayed (queue_Add key q) = delayed q
  /\ failures (queue_Add key q) = failures q
  /\ shuttingDown (queue_Add key q) = shuttingDown q
  /\ waiting q `prefix_of` waiting (queue_Add key q).
Proof.
  unfold queue_Add.
  destruct (shuttingDown q) eqn:Hshut; [by rewrite Hshut|].
  destruct (bool_decide (key ∈ dirty q)); [by rewrite Hshut|]. simpl.
  do 4 (split; [done|]).
  destruct (bool_decide (key ∈ processing q)); [done|]. by apply prefix_app_r.
Qed.

Lemma queue_Adds_keep keys q :
  let q' := foldl (fun q key => queue_Add key q) q keys in
  processing q' = processing q
  /\ delayed q' = delayed q
  /\ failures q' = failures q
  /\ shuttingDown q' = shuttingDown q
  /\ waiting q `prefix_of` waiting q'.
Proof.
  revert q. induction keys as [|key keys IH]; intros q; simpl; [done|].
  destruct (IH (queue_Add key q)) as (Hp & Hd & Hf & Hs & Hw).
  destruct (queue_Add_keeps key q) as (Hp' & Hd' & Hf' & Hs' & Hw').
  do 4 (split; [congruence|]). by etrans.
Qed.

(** X12.  The claim-deleted handler always returns, whatever object it is
    handed (a claim, a pod, a tombstone), and all it may change is the queue
    and the error log: the store, the client log, the events and the
    counters are as before, and in the queue nothing is taken away: the keys
    that waited still wait, in the same order and ahead of any new key, and
    the keys in flight, the scheduled retries and the requeue counts are
    untouched. *)
Theorem onPVCDelete_only_enqueues obj ec :
  let ec' := snd (onPVCDelete obj ec) in
  fst (onPVCDelete obj ec) = Returns tt
  /\ kubeClient ec' = kubeClient ec
  /\ recorder ec' = recorder ec
  /\ EphemeralVolumeCreateAttempts ec' = EphemeralVolumeCreateAttempts ec
  /\ EphemeralVolumeCreateFailures ec' = EphemeralVolumeCreateFailures ec
  /\ waiting (queue ec) `prefix_of` waiting (queue ec')
  /\ processing (queue ec') = processing (queue ec)
  /\ delayed (queue ec') = delayed (queue ec)
  /\ failures (queue ec') = failures (queue ec).
Proof.
  assert (Hsame : forall ec0 : ephemeralController,
            queue ec0 = queue ec -> waiting (queue ec) `prefix_of` waiting (queue ec0))
    by (by intros ec0 ->).
  destruct obj as [pod|pvc|tombstone]; simpl;
    try (do 5 (split; [done|]); split; [by apply Hsame | done]).
  unfold bind, this.
  destruct (podIndexer ec _ _) as [objs [e|]]; simpl;
    [do 5 (split; [done|]); split; [by apply Hsame | done]|].
  rewrite enqueuePods_eq. simpl.
  destruct (queue_Adds_keep (omap enqueueKey objs) (queue ec)) as (Hp & Hd & Hf & _ & Hw).
  do 5 (split; [done|]). by split.
Qed.

Lemma queue_Add_absorbed key q :
  shuttingDown q = true \/ key ∈ dirty q -> queue_Add key q = q.
Proof.
  intros [Hshut|Hin]; unfold queue_Add.
  - by rewrite Hshut.
  - destruct (shuttingDown q); [done|]. by rewrite bool_decide_eq_true_2.
Qed.

Lemma queue_Add_absorbs key other q :
  key = other \/ shuttingDown q = true \/ key ∈ dirty q ->
  shuttingDown (queue_Add other q) = true \/ key ∈ dirty (queue_Add other q).
Proof.
  intros Hkey. unfold queue_Add.
  destruct (shuttingDown q) eqn:Hshut; [by left|].
  destruct (bool_decide (other ∈ dirty q)) eqn:Hother; simpl.
  - apply bool_decide_eq_true_1 in Hother.
    destruct Hkey as [->|[Hs|Hin]]; [by right | congruence | by right].
  - right. rewrite elem_of_union, elem_of_singleton.
    destruct Hkey as [->|[Hs|Hin]]; [by left | congruence | by right].
Qed.

Lemma queue_Adds_absorb keys key q :
  key ∈ keys \/ shuttingDown q = true \/ key ∈ dirty q ->
  let q' := foldl (fun q key => queue_Add key q) q keys in
  shuttingDown q' = true \/ key ∈ dirty q'.
Proof.
  revert q. induction keys as [|k keys IH]; intros q Hkey; simpl.
  - destruct Hkey as [Hin|Hq]; [by apply elem_of_nil in Hin | exact Hq].
  - apply IH. destruct Hkey as [Hin|Hq].
    + apply elem_of_cons in Hin as [->|Hin]; [|by left].
      right. apply queue_Add_absorbs. by left.
    + right. apply queue_Add_absorbs. by right.
Qed.

Lemma queue_Adds_absorbed keys q :
  (forall key, key ∈ keys -> shuttingDown q = true \/ key ∈ dirty q) ->
  foldl (fun q key => queue_Add key q) q keys = q.
Proof.
  induction keys as [|k keys IH]; intros Hall; simpl; [done|].
  rewrite queue_Add_absorbed by (apply Hall, list_elem_of_here).
  apply IH. intros key Hin. by apply Hall, list_elem_of_further.
Qed.

Lemma queue_Adds_twice keys q :
  let once := foldl (fun q key => queue_Add key q) q keys in
  foldl (fun q key => queue_Add key q) once keys = once.
Proof.
  simpl. apply queue_Adds_absorbed. intros key Hin.
  apply queue_Adds_absorb. by left.
Qed.

(** X13.  Notifications collapse in the queue.  Handing the same object to
    the pod-added handler twice leaves the state the first call left; and
    handing the same deleted claim to the claim-deleted handler twice leaves
    the queue the first call left. *)
Theorem repeated_notifications_collapse obj ec :
  snd (enqueuePod obj (snd (enqueuePod obj ec))) = snd (enqueuePod obj ec)
  /\ queue (snd (onPVCDelete obj (snd (onPVCDelete obj ec))))
     = queue (snd (onPVCDelete obj ec)).
Proof.
  split.
  - rewrite !enqueuePod_eq. simpl.
    destruct (enqueueKey obj) as [key|]; [|done]. simpl.
    pose proof (queue_Adds_twice [key] (queue ec)) as Htwice. simpl in Htwice.
    by rewrite Htwice.
  - destruct obj as [pod|pvc|tombstone]; simpl; try done.
    unfold bind, this.
    destruct (podIndexer ec _ _) as [objs [e|]] eqn:Hindex; simpl.
    + by rewrite Hindex.
    + rewrite enqueuePods_eq. simpl. rewrite Hindex. simpl.
      rewrite enqueuePods_eq. simpl. apply queue_Adds_twice.
Qed.

(** *** Keys *)

Lemma strings_Split_no_slash s :
  hasSlash s = false -> strings_Split "/" s = [s].
Proof.
  induction s as [|c s IH]; simpl; [done|].
  destruct (Ascii.eqb c "/"); simpl; [discriminate|].
  intros Hrest. by rewrite (IH Hrest).
Qed.

Lemma strings_Split_at_slash s rest :
  hasSlash s = false ->
  strings_Split "/" (s +:+ String "/" rest) = s :: strings_Split "/" rest.
Proof.
  induction s as [|c s IH]; simpl; [done|].
  destruct (Ascii.eqb c "/"); simpl; [discriminate|].
  intros Hrest. by rewrite (IH Hrest).
Qed.

(** X14.  The key the pod-added handler enqueues leads the sync handler back
    to the pod: for a pod whose namespace and name contain no slash, the
    enqueued key splits into exactly that namespace and that name, without
    error. *)
Theorem enqueued_key_splits_back pod key :
  enqueueKey (PodObj pod) = Some key ->
  hasSlash (metav1.Namespace (v1.PodMeta pod)) = false ->
  hasSlash (metav1.Name (v1.PodMeta pod)) = false ->
  SplitMetaNamespaceKey key
    = (metav1.Namespace (v1.PodMeta pod), metav1.Name (v1.PodMeta pod), None).
Proof.
  intros Hkey Hns Hname. simpl in Hkey.
  destruct (isSet _); [discriminate|].
  destruct (existsb _ _); [|discriminate].
  injection Hkey as <-.
  unfold DeletionHandlingMetaNamespaceKeyFunc, SplitMetaNamespaceKey.
  case_bool_decide as Hempty; simpl.
  - rewrite (strings_Split_no_slash _ Hname). by rewrite Hempty.
  - change (String.append (metav1.Namespace (v1.PodMeta pod))
                          (String.append "/" (metav1.Name (v1.PodMeta pod))))
      with (metav1.Namespace (v1.PodMeta pod) +:+ String "/" (metav1.Name (v1.PodMeta pod))).
    rewrite (strings_Split_at_slash _ _ Hns), (strings_Split_no_slash _ Hname).
    reflexivity.
Qed.

Lemma enqueued_key_splits_back_witness :
  SplitMetaNamespaceKey "ns/p1" = ("ns", "p1", None).
Proof.
  apply (enqueued_key_splits_back Sample.p1 "ns/p1"); reflexivity.
Defined.

(** ** Properties of the logging flags *)

Lemma VisitAll_keeps {S : Type} (fn : logs.Flag -> S -> option S) (good : S -> Prop)
    flags s s' :
  (forall f s s', fn f s = Some s' -> good s -> good s') ->
  logs.VisitAll fn flags s = Some s' ->
  good s -> good s'.
Proof.
  intros Hstep. revert s. induction flags as [|f flags IH]; intros s Hrun Hs; simpl in Hrun.
  - by injection Hrun as <-.
  - destruct (fn f s) as [s0|] eqn:Hf; [|discriminate]. eauto.
Qed.

Lemma VisitAll_reaches {S : Type} (fn : logs.Flag -> S -> option S) (good : S -> Prop)
    flags f s s' :
  (forall f s s', fn f s = Some s' -> good s -> good s') ->
  (forall s s', fn f s = Some s' -> good s') ->
  f ∈ flags ->
  logs.VisitAll fn flags s = Some s' ->
  good s'.
Proof.
  intros Hkeep Hhere. revert s. induction flags as [|g flags IH]; intros s Hin Hrun.
  { by apply elem_of_nil in Hin. }
  simpl in Hrun. destruct (fn g s) as [s0|] eqn:Hg; [|discriminate].
  apply elem_of_cons in Hin as [<-|Hin]; [|by eapply IH].
  eapply VisitAll_keeps; [exact Hkeep | exact Hrun |]. by eapply Hhere.
Qed.

(** X15.  [AddFlags] may be called more than once.  For any flag set in
    which an added flag can be looked up under its name and stays there, and
    with [v] among the package flags: when a call of [AddFlags] went through,
    flag [v] is in the set, and a further call returns the set as it is. *)
Theorem AddFlags_again (P : logs.PFlagSet) flags fs fs' :
  (forall pf fs fs',
     logs.AddFlag P pf fs = Some fs' -> isSet (logs.Lookup P fs' (logs.PName pf)) = true) ->
  (forall pf fs fs' name,
     logs.AddFlag P pf fs = Some fs' ->
     isSet (logs.Lookup P fs name) = true -> isSet (logs.Lookup P fs' name) = true) ->
  (exists f, f ∈ flags /\ logs.Name f = "v") ->
  logs.AddFlags P flags fs = Some fs' ->
  isSet (logs.Lookup P fs' "v") = true
  /\ logs.AddFlags P flags fs' = Some fs'.
Proof.
  intros Hfound Hkeeps (v & Hin & Hname) Hrun.
  assert (Hv : isSet (logs.Lookup P fs' "v") = true).
  { unfold logs.AddFlags in Hrun.
    destruct (isSet (logs.Lookup P fs "v")) eqn:Hhave; [by injection Hrun as <-|].
    eapply (VisitAll_reaches _ (fun s => isSet (logs.Lookup P s "v") = true));
      [| |exact Hin|exact Hrun].
    - intros f s s' Hadd Hs. simpl in Hadd. eapply Hkeeps; [exact Hadd | exact Hs].
    - intros s s' Hadd. simpl in Hadd. rewrite Hname in Hadd. simpl in Hadd.
      apply Hfound in Hadd. simpl in Hadd. by rewrite Hname in Hadd. }
  split; [exact Hv|]. unfold logs.AddFlags. by rewrite Hv.
Qed.

Lemma find_snoc {A} (p : A -> bool) l x :
  List.find p (l ++ [x])
  = match List.find p l with
    | Some y => Some y
    | None => if p x then Some x else None
    end.
Proof.
  induction l as [|y l IH]; simpl; [done|]. by destruct (p y).
Qed.

Lemma listPFlagSet_found pf fs fs' :
  logs.AddFlag logs.listPFlagSet pf fs = Some fs' ->
  isSet (logs.Lookup logs.listPFlagSet fs' (logs.PName pf)) = true.
Proof.
  simpl. destruct (isSet _) eqn:Hthere; [discriminate|]. intros [= <-].
  rewrite find_snoc. destruct (List.find _ fs); [done|].
  by rewrite bool_decide_eq_true_2.
Qed.

Lemma listPFlagSet_keeps pf fs fs' name :
  logs.AddFlag logs.listPFlagSet pf fs = Some fs' ->
  isSet (logs.Lookup logs.listPFlagSet fs name) = true ->
  isSet (logs.Lookup logs.listPFlagSet fs' name) = true.
Proof.
  simpl. destruct (isSet _); [discriminate|]. intros [= <-].
  rewrite find_snoc. by destruct (List.find _ fs).
Qed.

Lemma AddFlags_again_witness :
  exists fs,
    logs.AddFlags logs.listPFlagSet logs.klogFlags [] = Some fs
    /\ length fs = 4
    /\ logs.AddFlags logs.listPFlagSet logs.klogFlags fs = Some fs.
Proof.
  destruct (logs.AddFlags logs.listPFlagSet logs.klogFlags []) as [fs|] eqn:Hrun;
    [|vm_compute in Hrun; discriminate].
  exists fs. split; [reflexivity|]. split.
  - vm_compute in Hrun. injection Hrun as <-. reflexivity.
  - assert (Hv : exists f, f ∈ logs.klogFlags /\ logs.Name f = "v").
    { exists {| logs.Name := "v"; logs.Usage := "number for the log level verbosity";
                logs.Value := "0"; logs.DefValue := "0"; logs.IsBoolFlag := false |}.
      split; [|reflexivity].
      apply list_elem_of_further, list_elem_of_further, list_elem_of_here. }
    exact (proj2 (AddFlags_again logs.listPFlagSet logs.klogFlags [] fs
                    listPFlagSet_found listPFlagSet_keeps Hv Hrun)).
Defined.

(** X16.  [AddGoFlags] has no such guard.  For any standard flag set in
    which a defined flag can be looked up under its name, stays there, and
    cannot be defined again: when a call of [AddGoFlags] went through, a
    further call on the same set panics. *)
Theorem AddGoFlags_again_panics (G : logs.GoFlagSet) flags fs fs' :
  (forall value name usage fs fs',
     logs.Var G value name usage fs = Some fs' ->
     isSet (logs.GoLookup G fs' name) = true) ->
  (forall value name usage fs fs' other,
     logs.Var G value name usage fs = Some fs' ->
     isSet (logs.GoLookup G fs other) = true -> isSet (logs.GoLookup G fs' other) = true) ->
  (forall value name usage fs,
     isSet (logs.GoLookup G fs name) = true -> logs.Var G value name usage fs = None) ->
  flags <> [] ->
  logs.AddGoFlags G flags fs = Some fs' ->
  logs.AddGoFlags G flags fs' = None.
Proof.
  intros Hdefined Hkeeps Hagain Hflags Hrun.
  destruct flags as [|f flags]; [done|].
  assert (Hf : isSet (logs.GoLookup G fs' (logs.Name f)) = true).
  { eapply (VisitAll_reaches _ (fun s => isSet (logs.GoLookup G s (logs.Name f)) = true));
      [| |apply list_elem_of_here|exact Hrun].
    - intros g s s' Hvar Hs. simpl in Hvar. eapply Hkeeps; [exact Hvar | exact Hs].
    - intros s s' Hvar. simpl in Hvar. eapply Hdefined. exact Hvar. }
  unfold logs.AddGoFlags. simpl. by rewrite Hagain.
Qed.

Lemma listGoFlagSet_defined value name usage fs fs' :
  logs.Var logs.listGoFlagSet value name usage fs = Some fs' ->
  isSet (logs.GoLookup logs.listGoFlagSet fs' name) = true.
Proof.
  simpl. destruct (isSet _); [discriminate|]. intros [= <-].
  rewrite find_snoc. destruct (List.find _ fs); [done|]. simpl.
  by rewrite bool_decide_eq_true_2.
Qed.

Lemma listGoFlagSet_keeps value name usage fs fs' other :
  logs.Var logs.listGoFlagSet value name usage fs = Some fs' ->
  isSet (logs.GoLookup logs.listGoFlagSet fs other) = true ->
  isSet (logs.GoLookup logs.listGoFlagSet fs' other) = true.
Proof.
  simpl. destruct (isSet _); [discriminate|]. intros [= <-].
  rewrite find_snoc. by destruct (List.find _ fs).
Qed.

Lemma listGoFlagSet_again value name usage fs :
  isSet (logs.GoLookup logs.listGoFlagSet fs name) = true ->
  logs.Var logs.listGoFlagSet value name usage fs = None.
Proof. simpl. by intros ->. Qed.

Lemma AddGoFlags_again_panics_witness :
  exists fs,
    logs.AddGoFlags logs.listGoFlagSet logs.klogFlags [] = Some fs
    /\ logs.AddGoFlags logs.listGoFlagSet logs.klogFlags fs = None.
Proof.
  destruct (logs.AddGoFlags logs.listGoFlagSet logs.klogFlags []) as [fs|] eqn:Hrun;
    [|vm_compute in Hrun; discriminate].
  exists fs. split; [reflexivity|].
  apply (AddGoFlags_again_panics logs.listGoFlagSet logs.klogFlags [] fs
           listGoFlagSet_defined listGoFlagSet_keeps listGoFlagSet_again);
    [discriminate | exact Hrun].
Defined.

(** ** A pass that nothing stands in the way of *)

Lemma Create_keeps_refuses namespace pvc c :
  refuses (snd (Create namespace pvc c)) = refuses c.
Proof. unfold Create. by repeat case_match. Qed.

Lemma append_cancel_l prefix s t :
  prefix +:+ s = prefix +:+ t -> s = t.
Proof.
  induction prefix as [|c prefix IH]; simpl; [done|].
  intros [= Heq]. by apply IH.
Qed.

(** Within a pod the derived claim name tells the volumes apart. *)
Lemma VolumeClaimName_inj pod vol vol' :
  VolumeClaimName pod vol = VolumeClaimName pod vol' -> v1.VolName vol = v1.VolName vol'.
Proof.
  unfold VolumeClaimName. intros Heq.
  apply append_cancel_l in Heq. by apply (append_cancel_l "-") in Heq.
Qed.

Lemma syncHandler_volumes_succeeds snapshot key pod vols :
  forall handled ec,
    behindStore snapshot ec ->
    (forall slot,
       is_Some (objects (kubeClient ec) !! slot) ->
       is_Some (snapshot !! slot)
       \/ exists vol, vol ∈ handled
                      /\ slot = (metav1.Namespace (v1.PodMeta pod), VolumeClaimName pod vol)) ->
    NoDup (v1.VolName <$> handled ++ vols) ->
    (forall calls namespace pvc, refuses (kubeClient ec) calls namespace pvc = None) ->
    forallb (fun vol => match v1.Ephemeral vol with
                        | Some source => isSet (v1.VolumeClaimTemplate source)
                        | None => true
                        end) vols = true ->
    (forall vol held,
       vol ∈ vols ->
       snapshot !! (metav1.Namespace (v1.PodMeta pod), VolumeClaimName pod vol) = Some held ->
       VolumeIsForPod pod held = None) ->
    fst (syncHandler_volumes key pod vols ec) = Returns None.
Proof.
  induction vols as [|vol vols IH];
    intros handled ec Hbehind Hdom Hnames Hadmit Htpl Hown; simpl; [done|].
  simpl in Htpl. apply andb_prop in Htpl as [Htpl Htpls].
  assert (Hnext : forall ec0,
    behindStore snapshot ec0 ->
    (forall slot,
       is_Some (objects (kubeClient ec0) !! slot) ->
       is_Some (snapshot !! slot)
       \/ exists v, v ∈ handled ++ [vol]
                    /\ slot = (metav1.Namespace (v1.PodMeta pod), VolumeClaimName pod v)) ->
    refuses (kubeClient ec0) = refuses (kubeClient ec) ->
    fst (syncHandler_volumes key pod vols ec0) = Returns None).
  { intros ec0 Hbehind0 Hdom0 Hsame.
    apply (IH (handled ++ [vol])); try done.
    - by rewrite <- app_assoc.
    - intros calls namespace pvc. rewrite Hsame. apply Hadmit.
    - intros v held Hin. apply Hown. by apply list_elem_of_further. }
  assert (Hkeep : forall slot,
    is_Some (objects (kubeClient ec) !! slot) ->
    is_Some (snapshot !! slot)
    \/ exists v, v ∈ handled ++ [vol]
                 /\ slot = (metav1.Namespace (v1.PodMeta pod), VolumeClaimName pod v)).
  { intros slot Hslot. destruct (Hdom slot Hslot) as [Hsnap|(v & Hin & ->)]; [by left|].
    right. exists v. split; [|done]. apply elem_of_app. by left. }
  unfold bind. rewrite handleVolume_eq.
  destruct (v1.Ephemeral vol) as [source|] eqn:Hsrc; [|by apply Hnext].
  destruct Hbehind as [Hcache Hsub]. rewrite Hcache. unfold storeLister.
  destruct (snapshot !! _) as [held|] eqn:Hsnap; simpl.
  - rewrite (Hown vol held); [|apply list_elem_of_here|done]. simpl.
    by apply Hnext.
  - destruct (v1.VolumeClaimTemplate source) as [template|]; [|discriminate]. simpl.
    assert (Hfree : objects (kubeClient ec) !!
                      (metav1.Namespace (v1.PodMeta pod), VolumeClaimName pod vol) = None).
    { destruct (objects (kubeClient ec) !! _) as [c|] eqn:Hlook; [|done].
      destruct (Hdom _ (mk_is_Some _ _ Hlook)) as [[c' Hc']|(v & Hin & Hslot)];
        [congruence|].
      injection Hslot as Hname. apply VolumeClaimName_inj in Hname.
      rewrite fmap_app, fmap_cons in Hnames.
      apply NoDup_app in Hnames as (_ & Hfresh & _).
      exfalso. apply (Hfresh (v1.VolName v)).
      + apply list_elem_of_fmap. by exists v.
      + rewrite <- Hname. apply list_elem_of_here. }
    unfold Create at 1 2. simpl. rewrite Hfree, Hadmit. simpl.
    apply Hnext.
    + split; [exact Hcache|]. simpl. unfold Create. simpl. rewrite Hfree, Hadmit. simpl.
      etrans; [exact Hsub|]. by apply insert_subseteq.
    + simpl. unfold Create. simpl. rewrite Hfree, Hadmit. simpl.
      intros slot Hslot.
      destruct (decide (slot = (metav1.Namespace (v1.PodMeta pod), VolumeClaimName pod vol)))
        as [->|Hne].
      * right. exists vol. split; [|done]. apply elem_of_app. right. apply list_elem_of_here.
      * rewrite lookup_insert_ne in Hslot by done. by apply Hkeep.
    + simpl. apply Create_keeps_refuses.
Qed.

(** X17.  A pass that nothing stands in the way of succeeds.  Let the claim
    cache serve the store's contents and let the key resolve to a pod that is
    not being deleted, whose volumes have distinct names and whose ephemeral
    volumes all carry a template.  If the store turns no create down and
    every claim it already holds under a derived name of the pod passes the
    ownership check, the sync handler returns nil. *)
Theorem syncHandler_succeeds key ec namespace name pod :
  cacheReflectsStore ec ->
  SplitMetaNamespaceKey key = (namespace, name, None) ->
  podLister ec namespace name = (Some pod, None) ->
  isSet (metav1.DeletionTimestamp (v1.PodMeta pod)) = false ->
  NoDup (v1.VolName <$> v1.Volumes (v1.Spec pod)) ->
  templatesPresent pod = true ->
  (forall calls namespace pvc, refuses (kubeClient ec) calls namespace pvc = None) ->
  (forall vol held,
     vol ∈ v1.Volumes (v1.Spec pod) ->
     objects (kubeClient ec) !!
       (metav1.Namespace (v1.PodMeta pod), VolumeClaimName pod vol) = Some held ->
     VolumeIsForPod pod held = None) ->
  fst (syncHandler key ec) = Returns None.
Proof.
  intros Hcache Hkey Hpod Hlive Hnames Htpl Hadmit Hown.
  unfold syncHandler. rewrite Hkey.
  unfold bind, this, deref, ret. rewrite Hpod. simpl. rewrite Hlive.
  apply (syncHandler_volumes_succeeds (objects (kubeClient ec)) key pod _ []);
    try done.
  intros slot Hslot. by left.
Qed.

Lemma syncHandler_succeeds_witness :
  fst (syncHandler "ns/p1" (Sample.controller [Sample.p1] ∅ [])) = Returns None.
Proof.
  apply (syncHandler_succeeds "ns/p1" (Sample.controller [Sample.p1] ∅ [])
           "ns" "p1" Sample.p1).
  - intros namespace name. reflexivity.
  - reflexivity.
  - reflexivity.
  - reflexivity.
  - apply (bool_decide_unpack _). vm_compute. reflexivity.
  - reflexivity.
  - intros calls namespace pvc. reflexivity.
  - intros vol held _ Hheld. simpl in Hheld. by rewrite lookup_empty in Hheld.
Defined.
